(** * Fashion Retail ETL: column normalisation, cleaning and Pareto/ABC engine

    A shallow embedding of [scripts/data_cleaning.py] and the proofs of the
    properties its specification states.

    Modelling conventions.
    - pandas floating point numbers are exact rationals ([Q]): sums, quotients
      and roundings carry no representation error.  The special values that
      a floating point division produces (infinities and NaN) are explicit
      constructors of [fvalue], used where the source divides.  A statement
      that holds of the rationals only says so; module [F64] follows the
      sums and the roundings of [calculate_pareto] on binary64 numbers and
      shows where the two part.
    - Python [str] values are [string]s whose characters are the code points
      below 256 (the Latin-1 block); [remove_accents], [strip], [lower] and
      [upper] follow the Unicode tables on that block.
    - A DataFrame is a list of column labels, which may repeat, and a list of
      rows; a cell is described by what the pipeline observes of it.
    - Exceptions are values of [error]; a function that may raise returns a
      [result].
    - [sort_values] is a stable insertion sort; pandas may order rows of equal
      key differently, and no property below depends on the order of ties.
    - Logging is kept only where a property speaks of it (the per-file error
      log of [extract_all_files]); of [load_star_schema] the branch dimension
      that it computes is modelled, the writing of the files is not. *)

From Stdlib Require Import QArith Qround Qabs ZArith List String Ascii Bool Lia Permutation Sorted Lqa.
From Stdlib Require OrderedTypeEx PrimFloat FloatOps SpecFloat.
From stdpp Require Import gmap strings.
Import ListNotations.
Open Scope string_scope.

(** * The model *)

(** ** Exceptions *)

Inductive error : Type :=
| FileNotFoundError
| ValueError
| KeyError
| TypeError
| AttributeError
| ParserError.

Inductive result (A : Type) : Type :=
| Ok (a : A)
| Err (e : error).
Arguments Ok {A} a.
Arguments Err {A} e.

Definition bind {A B : Type} (r : result A) (k : A -> result B) : result B :=
  match r with
  | Ok a => k a
  | Err e => Err e
  end.

Notation "'do' x <- r ; k" := (bind r (fun x => k))
  (at level 10, x name, r at level 100, k at level 200).

(** ** Numbers *)

Definition Qlt_bool (x y : Q) : bool := negb (Qle_bool y x).

Definition Qsum (l : list Q) : Q := fold_right Qplus 0%Q l.

(** [numpy.rint]: nearest integer, ties to the even one. *)
Definition round_half_even (q : Q) : Z :=
  let f := Qfloor q in
  match Qcompare (q - inject_Z f) (1 # 2) with
  | Lt => f
  | Gt => (f + 1)%Z
  | Eq => if Z.even f then f else (f + 1)%Z
  end.

Definition pow10 (decimals : nat) : Q := inject_Z (10 ^ Z.of_nat decimals).

(** [Series.round(decimals)]: scale, [rint], scale back. *)
Definition round (decimals : nat) (q : Q) : Q :=
  (inject_Z (round_half_even (q * pow10 decimals)) / pow10 decimals)%Q.

(** [Series.cumsum]. *)
Fixpoint cumsum_from (acc : Q) (l : list Q) : list Q :=
  match l with
  | [] => []
  | x :: l' => (acc + x)%Q :: cumsum_from (acc + x)%Q l'
  end.

Definition cumsum (l : list Q) : list Q := cumsum_from 0%Q l.

(** The outcome of a floating point division: a finite number, an infinity
    or NaN. *)
Inductive fvalue : Type :=
| Fin (q : Q)
| PInf
| NInf
| NaN.

(** [a / b] on two finite floats, the way numpy divides: a zero divisor gives
    NaN for [0 / 0] and an infinity of the sign of [a] otherwise. *)
Definition fdiv (a b : Q) : fvalue :=
  if Qeq_bool b 0 then
    if Qeq_bool a 0 then NaN
    else if Qlt_bool 0 a then PInf else NInf
  else Fin (a / b)%Q.

(** [Series.fillna(0)]: only NaN is replaced. *)
Definition fillna0 (v : fvalue) : fvalue :=
  match v with
  | NaN => Fin 0%Q
  | _ => v
  end.

Definition fround (decimals : nat) (v : fvalue) : fvalue :=
  match v with
  | Fin q => Fin (round decimals q)
  | _ => v
  end.

(** ** Sorting and grouping *)

Fixpoint insert_sorted {A : Type} (leb : A -> A -> bool) (x : A) (l : list A) : list A :=
  match l with
  | [] => [x]
  | y :: l' => if leb x y then x :: y :: l' else y :: insert_sorted leb x l'
  end.

Definition sort {A : Type} (leb : A -> A -> bool) (l : list A) : list A :=
  fold_right (insert_sorted leb) [] l.

Definition string_pair_leb (a b : string * string) : bool :=
  match String.compare (fst a) (fst b) with
  | Lt => true
  | Gt => false
  | Eq => String.leb (snd a) (snd b)
  end.

Definition string_pair_eqb (a b : string * string) : bool :=
  String.eqb (fst a) (fst b) && String.eqb (snd a) (snd b).

Definition string_pair_eq_dec (a b : string * string) : {a = b} + {a <> b}.
Proof. decide equality; apply string_dec. Defined.

(** Group keys of [DataFrame.groupby]: the distinct keys, in sorted order. *)
Definition group_keys (l : list string) : list string :=
  sort String.leb (nodup string_dec l).

Definition group_keys2 (l : list (string * string)) : list (string * string) :=
  sort string_pair_leb (nodup string_pair_eq_dec l).

(** ** Strings

    One character is one code point of the Latin-1 block.  Four characters of
    the block have a compatibility decomposition that leaves it (the micro
    sign and the three vulgar fractions) and three have an upper case that is
    not a single character of the block (sharp s, micro sign, y with
    diaeresis); the model leaves those unchanged. *)

Definition between (lo hi n : N) : bool := ((lo <=? n) && (n <=? hi))%N.

(** [str.isspace] on the block. *)
Definition is_space (c : ascii) : bool :=
  let n := N_of_ascii c in
  between 9 13 n || between 28 32 n || (n =? 133)%N || (n =? 160)%N.

Definition lower_char (c : ascii) : ascii :=
  let n := N_of_ascii c in
  if between 65 90 n || (between 192 222 n && negb (n =? 215)%N)
  then ascii_of_N (n + 32) else c.

Definition upper_char (c : ascii) : ascii :=
  let n := N_of_ascii c in
  if between 97 122 n || (between 224 254 n && negb (n =? 247)%N)
  then ascii_of_N (n - 32) else c.

(** NFKD followed by the removal of combining marks, per character: an
    accented letter gives its base letter, a superscript digit or ordinal
    indicator its plain form, and a spacing accent (diaeresis, macron, acute,
    cedilla) or a no-break space gives a space. *)
Definition remove_accents_char (c : ascii) : ascii :=
  let n := N_of_ascii c in
  if between 192 197 n then "A"%char
  else if (n =? 199)%N then "C"%char
  else if between 200 203 n then "E"%char
  else if between 204 207 n then "I"%char
  else if (n =? 209)%N then "N"%char
  else if between 210 214 n then "O"%char
  else if between 217 220 n then "U"%char
  else if (n =? 221)%N then "Y"%char
  else if between 224 229 n then "a"%char
  else if (n =? 231)%N then "c"%char
  else if between 232 235 n then "e"%char
  else if between 236 239 n then "i"%char
  else if (n =? 241)%N then "n"%char
  else if between 242 246 n then "o"%char
  else if between 249 252 n then "u"%char
  else if (n =? 253)%N || (n =? 255)%N then "y"%char
  else if (n =? 170)%N then "a"%char
  else if (n =? 186)%N then "o"%char
  else if (n =? 185)%N then "1"%char
  else if (n =? 178)%N then "2"%char
  else if (n =? 179)%N then "3"%char
  else if (n =? 160)%N || (n =? 168)%N || (n =? 175)%N || (n =? 180)%N || (n =? 184)%N
  then " "%char
  else c.

Fixpoint map_string (f : ascii -> ascii) (s : string) : string :=
  match s with
  | EmptyString => EmptyString
  | String c s' => String (f c) (map_string f s')
  end.

Definition lower (s : string) : string := map_string lower_char s.
Definition upper (s : string) : string := map_string upper_char s.

Definition remove_accents (text : string) : string :=
  map_string remove_accents_char text.

Fixpoint lstrip (s : string) : string :=
  match s with
  | EmptyString => EmptyString
  | String c s' => if is_space c then lstrip s' else s
  end.

Fixpoint rstrip (s : string) : string :=
  match s with
  | EmptyString => EmptyString
  | String c s' =>
      let r := rstrip s' in
      if is_space c && String.eqb r EmptyString then EmptyString else String c r
  end.

Definition strip (s : string) : string := rstrip (lstrip s).

(** [sub in s]. *)
Fixpoint contains (sub s : string) : bool :=
  String.prefix sub s ||
  match s with
  | EmptyString => false
  | String _ s' => contains sub s'
  end.

(** [Series.str.contains(pat, case=False)] for a pattern without regular
    expression metacharacters: a match up to the case of the letters. *)
Definition contains_nocase (pat s : string) : bool :=
  contains (lower pat) (lower s).

Definition mem (c : string) (l : list string) : bool := existsb (String.eqb c) l.

(** ** Tables *)

(** A cell, as the pipeline observes it: its text under [astype(str)] and its
    value under [pd.to_numeric(errors='coerce')], [None] standing for NaN. *)
Record cell : Type := { cell_str : string; cell_num : option Q }.

Definition nan : cell := {| cell_str := "nan"; cell_num := None |}.
Definition text (s : string) : cell := {| cell_str := s; cell_num := None |}.
Definition number (s : string) (q : Q) : cell := {| cell_str := s; cell_num := Some q |}.

Record DataFrame : Type := { columns : list string; rows : list (list cell) }.

(** [df.empty]: some axis has length 0. *)
Definition is_empty (df : DataFrame) : bool :=
  match columns df, rows df with
  | [], _ => true
  | _, [] => true
  | _, _ => false
  end.

Fixpoint position (c : string) (cols : list string) : option nat :=
  match cols with
  | [] => None
  | c' :: cols' =>
      if String.eqb c c' then Some O else option_map S (position c cols')
  end.

(** The cell of row [r] under label [c], NaN where the row has none. *)
Definition at_label (cols : list string) (c : string) (r : list cell) : cell :=
  match position c cols with
  | Some i => nth i r nan
  | None => nan
  end.

(** A label that occurs more than once: [df[c]] is then a DataFrame, not a
    Series. *)
Definition duplicated (c : string) (cols : list string) : bool :=
  (1 <? count_occ string_dec cols c)%nat.

(** ** Column normalisation (FASE 2) *)

Definition is_articulo (col_clean : string) : bool :=
  contains "art" col_clean || contains "prod" col_clean ||
  contains "codigo" col_clean || contains "sku" col_clean.

(** The [if]/[elif] chain below the Articulo test. *)
Definition other_target (col_clean : string) : option string :=
  if contains "desc" col_clean || contains "nombre" col_clean then Some "Descripcion"
  else if contains "cant" col_clean && negb (contains "total" col_clean) then Some "Cantidad"
  else if String.eqb col_clean "precio" || String.eqb col_clean "precio unitario"
          || String.eqb col_clean "preciou" then Some "Precio"
  else if (contains "total" col_clean && contains "prec" col_clean)
          || String.eqb col_clean "total" || String.eqb col_clean "importe"
       then Some "Total_precio"
  else None.

(** One iteration of the detection loop; the state is the dictionary
    [col_mapping] and the flag [articulo_found]. *)
Definition fuzzy_step (st : gmap string string * bool) (col : string)
  : gmap string string * bool :=
  let col_mapping := fst st in
  let articulo_found := snd st in
  let col_lower := lower col in
  let col_clean := remove_accents col_lower in
  if negb articulo_found && is_articulo col_clean
  then (<[col := "Articulo"]> col_mapping, true)
  else match other_target col_clean with
       | Some target => (<[col := target]> col_mapping, articulo_found)
       | None => (col_mapping, articulo_found)
       end.

Definition fuzzy_detection (cols : list string) : gmap string string :=
  fst (fold_left fuzzy_step cols (∅, false)).

(** [df.rename(columns=col_mapping)] on one label. *)
Definition rename (col_mapping : gmap string string) (c : string) : string :=
  match col_mapping !! c with
  | Some target => target
  | None => c
  end.

Definition clean_label (col : string) : string := remove_accents (strip col).

Definition super_normalize_columns (df : DataFrame) : result DataFrame :=
  let new_columns := map clean_label (columns df) in
  let col_mapping := fuzzy_detection new_columns in
  let renamed := map (rename col_mapping) new_columns in
  if mem "Articulo" renamed
  then Ok {| columns := renamed; rows := rows df |}
  else Err KeyError.

(** ** Extraction (FASE 1) *)

Definition keywords : list string := ["art"; "prod"; "desc"; "prec"; "cant"; "total"].

Definition has_valid_columns (df : DataFrame) : bool :=
  if is_empty df || (length (columns df) <? 3)%nat then false
  else
    let cols_lower := map (fun c => remove_accents (lower c)) (columns df) in
    let matches :=
      length (flat_map (fun col => List.filter (fun kw => contains kw col) keywords)
                       cols_lower) in
    (2 <=? matches)%nat.

Inductive encoding : Type := utf_8 | latin_1 | cp1252.

(** An input file: its path, the stem of its name, and what
    [pd.read_csv(filepath, header=h, encoding=e)] gives for it. *)
Record csv_file : Type := {
  filepath : string;
  stem : string;
  read_csv : option nat -> encoding -> result DataFrame
}.

Definition encodings : list encoding := [utf_8; latin_1; cp1252].
Definition headers_to_try : list (option nat) := [Some 0%nat; Some 1%nat; Some 2%nat; Some 3%nat; None].

(** The first attempt whose parse succeeds and has valid columns. *)
Fixpoint first_valid (f : csv_file) (attempts : list (encoding * option nat))
  : option DataFrame :=
  match attempts with
  | [] => None
  | (e, h) :: rest =>
      match read_csv f h e with
      | Ok df => if has_valid_columns df then Some df else first_valid f rest
      | Err _ => first_valid f rest
      end
  end.

Definition smart_read_csv (f : csv_file) : result DataFrame :=
  match first_valid f (list_prod encodings headers_to_try) with
  | Some df => Ok df
  | None => read_csv f (Some 2%nat) utf_8
  end.

(** [df[name] = v] for a scalar [v]: the column is overwritten where the
    label exists and appended otherwise. *)
Definition set_column (name : string) (v : cell) (df : DataFrame) : DataFrame :=
  let cols := columns df in
  let width := length cols in
  if mem name cols then
    {| columns := cols;
       rows := map (fun r => zip_with (fun c x => if String.eqb c name then v else x)
                                      cols (resize width nan r))
                   (rows df) |}
  else
    {| columns := (cols ++ [name])%list;
       rows := map (fun r => (resize width nan r ++ [v])%list) (rows df) |}.

(** The labels of [l] without repetition, in order of first occurrence. *)
Fixpoint unique (l : list string) : list string :=
  match l with
  | [] => []
  | x :: l' => x :: List.filter (fun y => negb (String.eqb x y)) (unique l')
  end.

(** [pd.concat(dataframes, ignore_index=True)]: the union of the labels in
    order of first occurrence, every row re-indexed on it, NaN where a frame
    lacks the label.  Each frame comes from [read_csv], whose labels are
    distinct. *)
Definition concat (dataframes : list DataFrame) : DataFrame :=
  let all := unique (flat_map columns dataframes) in
  {| columns := all;
     rows := flat_map (fun df => map (fun r => map (fun c => at_label (columns df) c r) all)
                                     (rows df))
                      dataframes |}.

(** The body of the loop over the files: the frames read so far and the
    names of the files whose error was logged. *)
Definition extract_step (st : list DataFrame * list string) (f : csv_file)
  : list DataFrame * list string :=
  let sucursal_name := upper (stem f) in
  match smart_read_csv f with
  | Ok df => ((fst st ++ [set_column "Sucursal" (text sucursal_name) df])%list, snd st)
  | Err _ => (fst st, (snd st ++ [filepath f])%list)
  end.

(** The order of [sorted(files)]. *)
Definition by_path (a b : csv_file) : bool := String.leb (filepath a) (filepath b).

Definition extract_loop (files : list csv_file) : list DataFrame * list string :=
  fold_left extract_step (sort by_path files) ([], []).

(** The consolidated table, or the exception raised, and the error log. *)
Definition extract_all_files (files : list csv_file) : result DataFrame * list string :=
  match files with
  | [] => (Err FileNotFoundError, [])
  | _ =>
      let st := extract_loop files in
      match fst st with
      | [] => (Err ValueError, snd st)
      | dataframes => (Ok (concat dataframes), snd st)
      end
  end.

(** ** Cleaning (FASE 3) *)

Module Clean.

(** A row of the cleaned table, restricted to the columns that the Pareto
    stage reads.  The field of a column that the table lacks is not read. *)
Record row : Type := {
  Articulo : string;
  Sucursal : string;
  Descripcion : string;
  Venta_Neta : Q;
  Cantidad : Q
}.

Record frame : Type := { columns : list string; rows : list row }.

End Clean.

Definition posibles_totales : list string :=
  ["Total_precio"; "Total precio"; "Precio total"; "Total_venta"; "Total"; "Importe"].

Definition patrones_totales : list string :=
  ["TOTAL"; "GRAND TOTAL"; "SUBTOTAL"; "GRAN TOTAL"; "TOTAL GENERAL"].

(** [pd.to_numeric(..., errors='coerce').fillna(0)] on one cell. *)
Definition to_numeric (c : cell) : Q :=
  match cell_num c with
  | Some q => q
  | None => 0%Q
  end.

(** [pd.to_numeric(df[c], errors='coerce').fillna(0)], row by row; it raises
    a TypeError when [df[c]] is not a Series. *)
Definition numeric_series (df : DataFrame) (c : string) : result (list cell -> Q) :=
  if duplicated c (columns df) then Err TypeError
  else Ok (fun r => to_numeric (at_label (columns df) c r)).

(** [df[c].astype(str).str.strip().str.upper()], row by row; a DataFrame has
    no [.str] accessor. *)
Definition upper_series (df : DataFrame) (c : string) : result (list cell -> string) :=
  if duplicated c (columns df) then Err AttributeError
  else Ok (fun r => upper (strip (cell_str (at_label (columns df) c r)))).

Definition is_total (value : string) : bool :=
  existsb (fun patron => contains_nocase patron value) patrones_totales.

Definition add_label (c : string) (cols : list string) : list string :=
  if mem c cols then cols else (cols ++ [c])%list.

Definition clean_data (df : DataFrame) : result Clean.frame :=
  let cols := columns df in
  let col_total_encontrada := find (fun c => mem c cols) posibles_totales in
  do venta_neta <-
    match col_total_encontrada with
    | Some c => numeric_series df c
    | None =>
        match find (fun c => contains "total" (lower c)) cols with
        | Some col_fuzzy => numeric_series df col_fuzzy
        | None => Ok (fun _ => 0%Q)
        end
    end;
  do cantidad <-
    (if mem "Cantidad" cols then numeric_series df "Cantidad" else Ok (fun _ => 0%Q));
  do _ <-
    (if mem "Precio" cols then numeric_series df "Precio" else Ok (fun _ => 0%Q));
  do articulo <-
    (if mem "Articulo" cols then upper_series df "Articulo" else Ok (fun _ => ""));
  let mask_valido r :=
    negb (String.eqb (articulo r) "") && negb (String.eqb (articulo r) "NAN")
    && negb (String.eqb (articulo r) "NONE") in
  let filas := if mem "Articulo" cols then List.filter mask_valido (rows df) else rows df in
  do descripcion <-
    (if mem "Descripcion" cols then upper_series df "Descripcion"
     else Ok (fun _ => "SIN DESCRIPCION"));
  let mask_no_total r :=
    (if mem "Articulo" cols then negb (is_total (articulo r)) else true)
    && (if mem "Descripcion" cols then negb (is_total (descripcion r)) else true) in
  let filas := List.filter mask_no_total filas in
  Ok {| Clean.columns :=
          add_label "Descripcion" (add_label "Cantidad" (add_label "Venta_Neta" cols));
        Clean.rows :=
          map (fun r => {| Clean.Articulo := articulo r;
                           Clean.Sucursal := cell_str (at_label cols "Sucursal" r);
                           Clean.Descripcion := descripcion r;
                           Clean.Venta_Neta := venta_neta r;
                           Clean.Cantidad := cantidad r |})
              filas |}.

(** ** Pareto analysis (FASE 4) *)

Module Fact.

Record row : Type := {
  Articulo : string;
  Sucursal : string;
  Venta_Neta : Q;
  Venta_Bruta : Q;
  Venta_Devolucion : Q;
  Cantidad : option Q
}.

End Fact.

Module Item.

(** A row of [dim_articulos], the item totals before the ranking. *)
Record row : Type := {
  Articulo : string;
  Venta_Neta_Total : Q;
  Venta_Bruta_Total : Q;
  Venta_Devolucion_Total : Q;
  Tasa_Devolucion : fvalue;
  Descripcion : option string
}.

End Item.

Module Dim.

Inductive abc : Type := A | B | C.

(** A row of [dim_pareto], the exported dimension. *)
Record row : Type := {
  Articulo : string;
  Descripcion : option string;
  Ranking : nat;
  Clasificacion_ABC : abc;
  Venta_Neta_Total : Q;
  Venta_Bruta_Total : Q;
  Venta_Devolucion_Total : Q;
  Tasa_Devolucion : fvalue;
  Porcentaje_Articulo_Global : Q;
  Porcentaje_Acumulado : Q
}.

End Dim.

Record tablas : Type := {
  fact_ventas : list Fact.row;
  dim_articulos : list Dim.row
}.

(** The two auxiliary columns. *)
Definition _Venta_Bruta (x : Q) : Q := if Qlt_bool 0 x then x else 0%Q.
Definition _Venta_Devolucion (x : Q) : Q := if Qlt_bool x 0 then Qabs x else 0%Q.

Definition clean_key (r : Clean.row) : string * string :=
  (Clean.Articulo r, Clean.Sucursal r).

(** [df.groupby(['Articulo', 'Sucursal']).agg(agg_fact).reset_index()], the
    sums before they are rounded. *)
Definition fact_groups (cols_disponibles : list string) (filas : list Clean.row)
  : list Fact.row :=
  map (fun k =>
         let g := List.filter (fun r => string_pair_eqb (clean_key r) k) filas in
         {| Fact.Articulo := fst k;
            Fact.Sucursal := snd k;
            Fact.Venta_Neta := Qsum (map Clean.Venta_Neta g);
            Fact.Venta_Bruta := Qsum (map (fun r => _Venta_Bruta (Clean.Venta_Neta r)) g);
            Fact.Venta_Devolucion :=
              Qsum (map (fun r => _Venta_Devolucion (Clean.Venta_Neta r)) g);
            Fact.Cantidad :=
              if mem "Cantidad" cols_disponibles
              then Some (Qsum (map Clean.Cantidad g)) else None |})
      (group_keys2 (map clean_key filas)).

Definition round_fact (f : Fact.row) : Fact.row :=
  {| Fact.Articulo := Fact.Articulo f;
     Fact.Sucursal := Fact.Sucursal f;
     Fact.Venta_Neta := round 2 (Fact.Venta_Neta f);
     Fact.Venta_Bruta := round 2 (Fact.Venta_Bruta f);
     Fact.Venta_Devolucion := round 2 (Fact.Venta_Devolucion f);
     Fact.Cantidad := option_map (round 0) (Fact.Cantidad f) |}.

(** [fact_ventas] as it stands after PASO 1. *)
Definition build_fact (cols_disponibles : list string) (filas : list Clean.row)
  : list Fact.row :=
  map round_fact (fact_groups cols_disponibles filas).

(** [df.groupby('Articulo')['Descripcion'].first()] looked up at one item. *)
Definition desc_map (filas : list Clean.row) (articulo : string) : option string :=
  option_map Clean.Descripcion
             (find (fun r => String.eqb (Clean.Articulo r) articulo) filas).

(** [dim_articulos]: the fact table re-aggregated by item, with the return
    rate and the description. *)
Definition build_items (cols_disponibles : list string) (filas : list Clean.row)
           (fact : list Fact.row) : list Item.row :=
  map (fun a =>
         let g := List.filter (fun f => String.eqb (Fact.Articulo f) a) fact in
         let neta := Qsum (map Fact.Venta_Neta g) in
         let bruta := Qsum (map Fact.Venta_Bruta g) in
         let devolucion := Qsum (map Fact.Venta_Devolucion g) in
         {| Item.Articulo := a;
            Item.Venta_Neta_Total := neta;
            Item.Venta_Bruta_Total := bruta;
            Item.Venta_Devolucion_Total := devolucion;
            Item.Tasa_Devolucion := fround 4 (fillna0 (fdiv devolucion bruta));
            Item.Descripcion :=
              if mem "Descripcion" cols_disponibles then desc_map filas a else None |})
      (group_keys (map Fact.Articulo fact)).

(** The three assignments of the ABC column, in the order of the source. *)
Definition classify (acumulado : Q) : Dim.abc :=
  let c := Dim.C in
  let c := if Qle_bool acumulado (80 # 100) then Dim.A else c in
  let c := if Qlt_bool (80 # 100) acumulado && Qle_bool acumulado (95 # 100)
           then Dim.B else c in
  c.

(** The columns added to the sorted items, row by row. *)
Fixpoint rank_rows (items : list Item.row) (globales acumulados : list Q)
         (rankings : list nat) : list Dim.row :=
  match items, globales, acumulados, rankings with
  | it :: items', g :: globales', a :: acumulados', k :: rankings' =>
      {| Dim.Articulo := Item.Articulo it;
         Dim.Descripcion := Item.Descripcion it;
         Dim.Ranking := k;
         Dim.Clasificacion_ABC := classify a;
         Dim.Venta_Neta_Total := Item.Venta_Neta_Total it;
         Dim.Venta_Bruta_Total := Item.Venta_Bruta_Total it;
         Dim.Venta_Devolucion_Total := Item.Venta_Devolucion_Total it;
         Dim.Tasa_Devolucion := Item.Tasa_Devolucion it;
         Dim.Porcentaje_Articulo_Global := g;
         Dim.Porcentaje_Acumulado := a |}
      :: rank_rows items' globales' acumulados' rankings'
  | _, _, _, _ => []
  end.

(** Items of positive net sale, by descending net sale. *)
Definition pareto_items (items : list Item.row) : list Item.row :=
  sort (fun a b => Qle_bool (Item.Venta_Neta_Total b) (Item.Venta_Neta_Total a))
       (List.filter (fun it => Qlt_bool 0 (Item.Venta_Neta_Total it)) items).

Definition build_dim (sorted : list Item.row) : list Dim.row :=
  let total_positivo := Qsum (map Item.Venta_Neta_Total sorted) in
  let globales :=
    map (fun it => round 4 (Item.Venta_Neta_Total it / total_positivo)) sorted in
  let acumulados := map (round 4) (cumsum globales) in
  rank_rows sorted globales acumulados (seq 1 (length sorted)).

(** [fact_ventas[fact_ventas['Articulo'].isin(articulos_en_dim)]]. *)
Definition fact_filtrado (fact : list Fact.row) (dim_pareto : list Dim.row)
  : list Fact.row :=
  List.filter (fun f => mem (Fact.Articulo f) (map Dim.Articulo dim_pareto)) fact.

Definition calculate_pareto (df : Clean.frame) : result tablas :=
  let cols_disponibles := Clean.columns df in
  if negb (forallb (fun col => mem col cols_disponibles)
                   ["Articulo"; "Venta_Neta"; "Sucursal"])
  then Err KeyError
  else if duplicated "Venta_Neta" cols_disponibles
          || duplicated "Articulo" cols_disponibles
          || duplicated "Sucursal" cols_disponibles
  then Err ValueError
  else
    let fact := build_fact cols_disponibles (Clean.rows df) in
    let items := build_items cols_disponibles (Clean.rows df) fact in
    match pareto_items items with
    | [] => Err ValueError
    | sorted =>
        let dim_pareto := build_dim sorted in
        Ok {| fact_ventas := fact_filtrado fact dim_pareto;
              dim_articulos := dim_pareto |}
    end.

(** ** The pipeline *)

(** [run_pipeline] up to the tables handed to the exporter, with the error
    log of the extraction. *)
Definition run_pipeline (files : list csv_file) : result tablas * list string :=
  let extracted := extract_all_files files in
  (do raw_df <- fst extracted;
   do raw_df <- super_normalize_columns raw_df;
   do clean_df <- clean_data raw_df;
   calculate_pareto clean_df,
   snd extracted).

(** ** The branch dimension (FASE 5)

    [load_star_schema] writes three files; the only table it computes is the
    branch dimension. *)

Module Branch.

Record row : Type := { Sucursal : string; Tipo : string }.

End Branch.

(** [dim_sucursales]: the distinct branches of the fact table with their
    type, sorted by branch. *)
Definition dim_sucursales (fact : list Fact.row) : list Branch.row :=
  let sucursales_unicas := unique (map Fact.Sucursal fact) in
  sort (fun a b => String.leb (Branch.Sucursal a) (Branch.Sucursal b))
       (map (fun s => {| Branch.Sucursal := s;
                         Branch.Tipo := if contains "ONLINE" s then "ONLINE" else "FISICA" |})
            sucursales_unicas).

(** ** The sums as the code computes them

    The model above takes sums and roundings as exact rationals.  The code
    computes them on binary64 floats: this module follows PASO 1 to PASO 3 of
    [calculate_pareto] on the kernel's binary64 numbers, for the statements
    whose truth depends on the representation.  The columns Cantidad,
    Descripcion and Tasa_Devolucion play no part in them and are left out.
    The net sales come out of [pd.to_numeric(...).fillna(0)], so none is
    NaN. *)

Module F64.

Import PrimFloat.
Local Open Scope float_scope.
(** The exact value of a finite float. *)
Definition to_Q (x : float) : option Q :=
  match FloatOps.Prim2SF x with
  | SpecFloat.S754_zero _ => Some 0%Q
  | SpecFloat.S754_finite s m e =>
      Some (Qred ((if s then -1 else 1) * inject_Z (Z.pos m) * Qpower 2 e))%Q
  | _ => None
  end.

(** [Series.sum()]: numpy adds fewer than 8 values in order, from 0. *)
Definition sum (l : list float) : float := fold_left add l 0.

(** The sum of a group in [groupby(...).agg('sum')]: plain accumulation, or
    the Kahan summation of the later pandas versions. *)
Inductive summation : Type := plain | compensated.

Definition kahan_step (st : float * float) (val : float) : float * float :=
  let sumx := fst st in
  let compensation := snd st in
  let y := val - compensation in
  let t := sumx + y in
  (t, t - sumx - y).

Definition group_sum (s : summation) (l : list float) : float :=
  match s with
  | plain => fold_left add l 0
  | compensated => fst (fold_left kahan_step l (0, 0))
  end.

(** [numpy.rint]: the nearest integer, ties to the even one.  Below 2^52 in
    magnitude, adding and subtracting 2^52 rounds to an integer; from 2^52 on
    every float is one. *)
Definition rint (x : float) : float :=
  let two52 := 4503599627370496 in
  if abs x <? two52 then
    if x =? 0 then x
    else
      let r := abs x + two52 - two52 in
      if x <? 0 then - r else r
  else x.

Fixpoint power_of_ten (decimals : nat) : float :=
  match decimals with
  | O => 1
  | S d => 10 * power_of_ten d
  end.

(** [Series.round(decimals)]: numpy multiplies by the power of ten, rounds
    to the nearest integer and divides. *)
Definition round (decimals : nat) (x : float) : float :=
  match decimals with
  | O => rint x
  | _ => rint (x * power_of_ten decimals) / power_of_ten decimals
  end.

(** A row of the cleaned table. *)
Record venta : Type := {
  Articulo : string;
  Sucursal : string;
  Venta_Neta : float
}.

Module Fact.

Record row : Type := {
  Articulo : string;
  Sucursal : string;
  Venta_Neta : float;
  Venta_Bruta : float;
  Venta_Devolucion : float
}.

End Fact.

Module Item.

Record row : Type := {
  Articulo : string;
  Venta_Neta_Total : float;
  Venta_Bruta_Total : float;
  Venta_Devolucion_Total : float
}.

End Item.

Definition _Venta_Bruta (x : float) : float := if 0 <? x then x else 0.
Definition _Venta_Devolucion (x : float) : float := if x <? 0 then abs x else 0.

Definition clean_key (r : venta) : string * string := (Articulo r, Sucursal r).

Definition fact_groups (s : summation) (filas : list venta) : list Fact.row :=
  map (fun k =>
         let g := List.filter (fun r => string_pair_eqb (clean_key r) k) filas in
         {| Fact.Articulo := fst k;
            Fact.Sucursal := snd k;
            Fact.Venta_Neta := group_sum s (map Venta_Neta g);
            Fact.Venta_Bruta := group_sum s (map (fun r => _Venta_Bruta (Venta_Neta r)) g);
            Fact.Venta_Devolucion :=
              group_sum s (map (fun r => _Venta_Devolucion (Venta_Neta r)) g) |})
      (group_keys2 (map clean_key filas)).

Definition round_fact (f : Fact.row) : Fact.row :=
  {| Fact.Articulo := Fact.Articulo f;
     Fact.Sucursal := Fact.Sucursal f;
     Fact.Venta_Neta := round 2 (Fact.Venta_Neta f);
     Fact.Venta_Bruta := round 2 (Fact.Venta_Bruta f);
     Fact.Venta_Devolucion := round 2 (Fact.Venta_Devolucion f) |}.

Definition build_fact (s : summation) (filas : list venta) : list Fact.row :=
  map round_fact (fact_groups s filas).

Definition build_items (s : summation) (fact : list Fact.row) : list Item.row :=
  map (fun a =>
         let g := List.filter (fun f => String.eqb (Fact.Articulo f) a) fact in
         {| Item.Articulo := a;
            Item.Venta_Neta_Total := group_sum s (map Fact.Venta_Neta g);
            Item.Venta_Bruta_Total := group_sum s (map Fact.Venta_Bruta g);
            Item.Venta_Devolucion_Total := group_sum s (map Fact.Venta_Devolucion g) |})
      (group_keys (map Fact.Articulo fact)).

Definition pareto_items (items : list Item.row) : list Item.row :=
  sort (fun a b => Item.Venta_Neta_Total b <=? Item.Venta_Neta_Total a)
       (List.filter (fun it => 0 <? Item.Venta_Neta_Total it) items).

Definition fact_filtrado (fact : list Fact.row) (dim_pareto : list Item.row)
  : list Fact.row :=
  List.filter (fun f => mem (Fact.Articulo f) (map Item.Articulo dim_pareto)) fact.

(** The two totals of the consistency check (PASO 3) and their
    difference. *)
Definition total_dim (s : summation) (filas : list venta) : float :=
  sum (map Item.Venta_Neta_Total (pareto_items (build_items s (build_fact s filas)))).

Definition total_fact_filtrado (s : summation) (filas : list venta) : float :=
  let fact := build_fact s filas in
  sum (map Fact.Venta_Neta (fact_filtrado fact (pareto_items (build_items s fact)))).

Definition diferencia (s : summation) (filas : list venta) : float :=
  abs (total_dim s filas - total_fact_filtrado s filas).




(** *** Sample data *)




(** 1.015 as the code holds it: the nearest binary64 number. *)
#[warnings="-inexact-float"]
Definition uno_quince : float := 1.015.

End F64.

(** ** Properties of the tables, as predicates *)

Open Scope Q_scope.

(** [diferencia] of the consistency check (PASO 3). *)
Definition diferencia (t : tablas) : Q :=
  Qabs (Qsum (map Dim.Venta_Neta_Total (dim_articulos t))
        - Qsum (map Fact.Venta_Neta (fact_ventas t))).







Close Scope Q_scope.

(** ** Properties of the normaliser and of the sniffer, as predicates *)

(** The canonical vocabulary, and the branch label that the extraction adds. *)
Definition canonical_labels : list string :=
  ["Articulo"; "Descripcion"; "Cantidad"; "Precio"; "Total_precio"; "Sucursal"].

Definition normalize_twice (df : DataFrame) : result DataFrame :=
  do df1 <- super_normalize_columns df;
  super_normalize_columns df1.

(** The label a column gets when no other column has the same cleaned label:
    the detection loop read position by position, without the dictionary. *)
Fixpoint assign (articulo_found : bool) (cols : list string) : list string :=
  match cols with
  | [] => []
  | col :: cols' =>
      let col_clean := remove_accents (lower col) in
      if negb articulo_found && is_articulo col_clean
      then "Articulo" :: assign true cols'
      else match other_target col_clean with
           | Some target => target :: assign articulo_found cols'
           | None => col :: assign articulo_found cols'
           end
  end.

(** Labels on which the detection loop maps every label it touches to
    itself. *)
Fixpoint settled (articulo_found : bool) (cols : list string) : Prop :=
  match cols with
  | [] => True
  | col :: cols' =>
      let col_clean := remove_accents (lower col) in
      if negb articulo_found && is_articulo col_clean
      then col = "Articulo" /\ settled true cols'
      else match other_target col_clean with
           | Some target => target = col
           | None => True
           end /\ settled articulo_found cols'
  end.

(** The columns whose accent-stripped lowercase name contains a keyword. *)
Definition matching_columns (df : DataFrame) : list string :=
  List.filter (fun c => existsb (fun kw => contains kw (remove_accents (lower c))) keywords)
              (columns df).

(** The validity predicate as the specification words it: a non-empty table
    of at least 3 columns, at least 2 of which match. *)
Definition valid_as_specified (df : DataFrame) : bool :=
  negb (is_empty df) && (3 <=? length (columns df))%nat
  && (2 <=? length (matching_columns df))%nat.

(** A dictionary that renames nothing. *)
Definition self_mapped (m : gmap string string) : Prop :=
  forall k v, m !! k = Some v -> v = k.

(** A pattern without white space. *)
Fixpoint no_space (p : string) : bool :=
  match p with
  | EmptyString => true
  | String a p' => negb (is_space a) && no_space p'
  end.

(** ** Properties of the cleaner, as predicates *)

(** A row of the consolidated table whose Articulo or Descripcion value
    contains one of the summary patterns, whatever the case of its letters. *)
Definition summary_row (df : DataFrame) (r : list cell) : bool :=
  (mem "Articulo" (columns df)
   && is_total (cell_str (at_label (columns df) "Articulo" r)))
  || (mem "Descripcion" (columns df)
      && is_total (cell_str (at_label (columns df) "Descripcion" r))).

Definition drop_summary_rows (df : DataFrame) : DataFrame :=
  {| columns := columns df;
     rows := List.filter (fun r => negb (summary_row df r)) (rows df) |}.

Definition no_total_clean (r : Clean.row) : Prop :=
  is_total (Clean.Articulo r) = false /\ is_total (Clean.Descripcion r) = false.

Definition no_total_fact (f : Fact.row) : Prop := is_total (Fact.Articulo f) = false.

Definition no_total_dim (d : Dim.row) : Prop :=
  is_total (Dim.Articulo d) = false
  /\ match Dim.Descripcion d with
     | Some s => is_total s = false
     | None => True
     end.

(** ** Properties of the consolidation, as predicates *)

Definition readable (f : csv_file) : bool :=
  match smart_read_csv f with
  | Ok _ => true
  | Err _ => false
  end.

(** The frames that the loop collects from a list of files. *)
Definition frames_read (files : list csv_file) : list DataFrame :=
  flat_map (fun f => match smart_read_csv f with
                     | Ok df => [set_column "Sucursal" (text (upper (stem f))) df]
                     | Err _ => []
                     end)
           files.

(** A file that cannot be read, or whose table, taken alone, has no column
    that the normaliser accepts as Articulo. *)
Definition file_fails (f : csv_file) : bool :=
  match smart_read_csv f with
  | Err _ => true
  | Ok df =>
      match super_normalize_columns (set_column "Sucursal" (text (upper (stem f))) df) with
      | Ok _ => false
      | Err _ => true
      end
  end.

(** Per-file handling as the specification words it: the run gives what it
    gives on the files that do not fail, and every failing file is logged. *)
Definition skips_failing_files (files : list csv_file) : Prop :=
  fst (run_pipeline files)
  = fst (run_pipeline (List.filter (fun f => negb (file_fails f)) files))
  /\ forall f, In f files -> file_fails f = true -> In (filepath f) (snd (run_pipeline files)).

(** ** Further predicates *)

Fixpoint all_chars (p : ascii -> bool) (s : string) : bool :=
  match s with
  | EmptyString => true
  | String c s' => p c && all_chars p s'
  end.

Definition is_ascii (s : string) : bool :=
  all_chars (fun c => (N_of_ascii c <? 128)%N) s.

(** The position of the first label that the detection loop accepts as the
    identity column. *)
Fixpoint first_match (cols : list string) : option nat :=
  match cols with
  | [] => None
  | c :: cols' =>
      if is_articulo (remove_accents (lower c)) then Some O
      else option_map S (first_match cols')
  end.

Definition targets : list string :=
  ["Articulo"; "Descripcion"; "Cantidad"; "Precio"; "Total_precio"].

(** An attempt of the sniffer that parses and has valid columns. *)
Definition attempt_valid (f : csv_file) (a : encoding * option nat) : bool :=
  match read_csv f (snd a) (fst a) with
  | Ok df => has_valid_columns df
  | Err _ => false
  end.

Definition attempts : list (encoding * option nat) := list_prod encodings headers_to_try.

(** The number of keywords that the accent-stripped lowercase name of a
    column contains. *)
Definition keyword_hits (c : string) : nat :=
  length (List.filter (fun kw => contains kw (remove_accents (lower c))) keywords).

(** The number of rows that the sniffer reads from a file, 0 when it cannot
    be read. *)
Definition rows_read (f : csv_file) : nat :=
  match smart_read_csv f with
  | Ok df => length (rows df)
  | Err _ => O
  end.

(** An identity as the cleaner leaves it. *)
Definition canonical_identity (a : string) : Prop :=
  a <> "" /\ a <> "NAN" /\ a <> "NONE" /\ strip a = a /\ upper a = a.

(** A string that does not start with white space. *)
Definition head_ok (s : string) : Prop :=
  match s with
  | EmptyString => True
  | String c _ => is_space c = false
  end.

(** A table in which the cleaner finds no column of totals: no label is one
    of the names it looks for, and none contains the word total. *)
Definition lacks_total_column (cols : list string) : Prop :=
  Forall (fun c => ~ In c posibles_totales /\ contains "total" (lower c) = false) cols.

(** The key of a row of the fact table. *)
Definition fact_key (f : Fact.row) : string * string :=
  (Fact.Articulo f, Fact.Sucursal f).


(** No cell under the label [c] is missing.  What [astype(str)] and
    [groupby(...).first()] do with a missing cell depends on the pandas
    version; a statement that assumes there is none holds under each. *)
Definition none_missing (c : string) (df : DataFrame) : Prop :=
  Forall (fun row => at_label (columns df) c row <> nan) (rows df).
(** ** Sample data *)

Open Scope Q_scope.

Definition fila (articulo sucursal : string) (venta_neta : Q) : Clean.row :=
  {| Clean.Articulo := articulo;
     Clean.Sucursal := sucursal;
     Clean.Descripcion := "SIN DESCRIPCION";
     Clean.Venta_Neta := venta_neta;
     Clean.Cantidad := 1 |}.

(** Item X sells in two branches, item Y is a pure return, and a third of
    the gross sale of item Z comes back. *)
Definition ventas_muestra : Clean.frame :=
  {| Clean.columns := ["Articulo"; "Sucursal"; "Venta_Neta"; "Cantidad"; "Descripcion"];
     Clean.rows := [fila "X" "A" 800; fila "X" "B" 200; fila "Y" "A" (-150);
                    fila "Z" "A" 300; fila "Z" "A" (-100)] |}.

Definition tablas_muestra : tablas :=
  Eval vm_compute in
    match calculate_pareto ventas_muestra with
    | Ok t => t
    | Err _ => {| fact_ventas := []; dim_articulos := [] |}
    end.




Close Scope Q_scope.

(** A table that has both a code and an item column. *)
Definition tabla_codigo_articulo : DataFrame :=
  {| columns := ["Codigo"; "Articulo"; "Total"];
     rows := [[text "A1"; text "CAMISA"; number "100" 100]] |}.

(** A label that ends with a spacing acute accent (code point 180). *)
Definition tabla_acento : DataFrame :=
  {| columns := ["sku"; String "x" (String "180" EmptyString)];
     rows := [[text "A1"; number "1" 1]] |}.

(** Two labels that differ by a trailing space only. *)
Definition tabla_repetida : DataFrame :=
  {| columns := ["producto desc"; "sku"; "Articulo"; "producto desc "];
     rows := [[text "A1"; text "B1"; text "C1"; text "D1"]] |}.

Definition tabla_canonica : DataFrame :=
  {| columns := ["Articulo"; "Descripcion"; "Cantidad"; "Precio"; "Total_precio"; "Sucursal"];
     rows := [[text "A1"; text "CAMISA"; number "2" 2; number "50" 50; number "100" 100;
               text "CENTRO"]] |}.

Definition tabla_sin_repetidas : DataFrame :=
  {| columns := [" Codigo "; "Nombre"; "Cant"; "Precio"; "Total"; "producto"];
     rows := [[text "A1"; text "CAMISA"; number "2" 2; number "50" 50; number "100" 100;
               text "P"]] |}.

(** One column matches two keywords; no other column matches any. *)
Definition parse_precio_total : DataFrame :=
  {| columns := ["Precio total"; "Fecha"; "Vendedor"];
     rows := [[number "100" 100; text "2026-01-02"; text "ANA"]] |}.

(** Two items of one branch and the summary line of the spreadsheet. *)
Definition tabla_con_total : DataFrame :=
  {| columns := ["Articulo"; "Descripcion"; "Total_precio"; "Sucursal"];
     rows := [[text "a1"; text "Camisa"; number "100" 100; text "CENTRO"];
              [text "a2"; text "Pantalon"; number "300" 300; text "CENTRO"];
              [text "TOTAL GENERAL"; nan; number "50000" 50000; text "CENTRO"]] |}.

Definition limpio_con_total : Clean.frame :=
  Eval vm_compute in
    match clean_data tabla_con_total with
    | Ok t => t
    | Err _ => {| Clean.columns := []; Clean.rows := [] |}
    end.

Definition tablas_con_total : tablas :=
  Eval vm_compute in
    match calculate_pareto limpio_con_total with
    | Ok t => t
    | Err _ => {| fact_ventas := []; dim_articulos := [] |}
    end.

(** A file whose header is on line [header] and parses to [df] there. *)
Definition archivo (path name : string) (header : nat) (df : DataFrame) : csv_file :=
  {| filepath := path;
     stem := name;
     read_csv := fun h _ =>
       match h with
       | Some n => if Nat.eqb n header then Ok df else Err ParserError
       | None => Err ParserError
       end |}.

Definition archivo_centro : csv_file :=
  archivo "data/raw/centro.csv" "centro" 0
    {| columns := ["sku"; "Cantidad"; "Total"];
       rows := [[text "a1"; number "2" 2; number "100" 100];
                [text "a2"; number "1" 1; number "300" 300]] |}.

(** A file without any identity column, its header on the third line. *)
Definition archivo_norte : csv_file :=
  archivo "data/raw/norte.csv" "norte" 2
    {| columns := ["foo"; "bar"; "TOTAL"];
       rows := [[text "x"; text "y"; number "7" 7]] |}.

(** A file that no attempt can parse. *)
Definition archivo_roto : csv_file :=
  {| filepath := "data/raw/roto.csv";
     stem := "roto";
     read_csv := fun _ _ => Err ParserError |}.

(** The header of scenario 1; the accented o is code point 243. *)
Definition tabla_acentuada : DataFrame :=
  {| columns := [String "C" (String "243" "digo");
                 "Descripci" +:+ String "243" "n";
                 "Cant"; "Precio"; "Total"];
     rows := [[text "a1"; text "Camisa"; number "2" 2; number "50" 50; number "100" 100]] |}.

(** A consolidated table without any total column. *)
Definition tabla_sin_total : DataFrame :=
  {| columns := ["Articulo"; "Cantidad"; "Sucursal"];
     rows := [[text "a1"; number "2" 2; text "CENTRO"]] |}.

(** Three items of equal net sale. *)
Definition ventas_iguales : Clean.frame :=
  {| Clean.columns := ["Articulo"; "Sucursal"; "Venta_Neta"; "Cantidad"; "Descripcion"];
     Clean.rows := [fila "P" "A" 10%Q; fila "Q" "A" 10%Q; fila "R" "A" 10%Q] |}.

(** A table without any identity column. *)
Definition tabla_sin_articulo : DataFrame :=
  {| columns := ["foo"; "bar"; "baz"];
     rows := [[text "x"; text "y"; text "z"]] |}.

Definition tabla_acentuada_normalizada : DataFrame :=
  {| columns := ["Articulo"; "Descripcion"; "Cantidad"; "Precio"; "Total_precio"];
     rows := rows tabla_acentuada |}.

(** A file with one title line above its header. *)
Definition archivo_sur : csv_file :=
  archivo "data/raw/sur.csv" "sur" 1
    {| columns := ["Articulo"; "Cantidad"; "Total"];
       rows := [[text "b1"; number "1" 1; number "40" 40]] |}.

Definition consolidado_muestra : DataFrame :=
  Eval vm_compute in
    match fst (extract_all_files [archivo_roto; archivo_sur; archivo_centro]) with
    | Ok t => t
    | Err _ => {| columns := []; rows := [] |}
    end.


Definition limpio_sin_total : Clean.frame :=
  Eval vm_compute in
    match clean_data tabla_sin_total with
    | Ok t => t
    | Err _ => {| Clean.columns := []; Clean.rows := [] |}
    end.

(** A second file with the header of [archivo_sur]. *)
Definition archivo_online : csv_file :=
  archivo "data/raw/tienda_online.csv" "tienda_online" 0
    {| columns := ["Articulo"; "Cantidad"; "Total"];
       rows := [[text " b1"; number "3" 3; number "120" 120];
                [text "b2"; number "1" 1; number "60" 60]] |}.

Definition tablas_sur_online : tablas :=
  Eval vm_compute in
    match fst (run_pipeline [archivo_roto; archivo_sur; archivo_online]) with
    | Ok t => t
    | Err _ => {| fact_ventas := []; dim_articulos := [] |}
    end.

(** Item a1 sells in two branches under two descriptions. *)
Definition tabla_con_descripcion : DataFrame :=
  {| columns := ["Articulo"; "Descripcion"; "Total_precio"; "Sucursal"];
     rows := [[text "a1"; text "Camisa azul"; number "100" 100; text "CENTRO"];
              [text "a2"; text "Pantalon"; number "300" 300; text "CENTRO"];
              [text "a1"; text "Camisa"; number "50" 50; text "NORTE"]] |}.

Definition limpio_con_descripcion : Clean.frame :=
  Eval vm_compute in
    match clean_data tabla_con_descripcion with
    | Ok t => t
    | Err _ => {| Clean.columns := []; Clean.rows := [] |}
    end.

Definition tablas_con_descripcion : tablas :=
  Eval vm_compute in
    match calculate_pareto limpio_con_descripcion with
    | Ok t => t
    | Err _ => {| fact_ventas := []; dim_articulos := [] |}
    end.
(** * Properties *)

(** ** Rounding *)

Open Scope Q_scope.


Lemma round_half_even_cases (q : Q) :
  let f := Qfloor q in
  (q - inject_Z f < 1 # 2 /\ round_half_even q = f)
  \/ (1 # 2 < q - inject_Z f /\ round_half_even q = (f + 1)%Z)
  \/ (q - inject_Z f == 1 # 2
      /\ round_half_even q = if Z.even f then f else (f + 1)%Z).
Proof.
  intros f. unfold round_half_even. fold f.
  destruct (Qcompare (q - inject_Z f) (1 # 2)) eqn:E.
  - right. right. split; [now apply Qeq_alt | reflexivity].
  - left. split; [now apply Qlt_alt | reflexivity].
  - right. left. split; [now apply Qgt_alt | reflexivity].
Qed.

Lemma round_half_even_comp (q q' : Q) : q == q' -> round_half_even q = round_half_even q'.
Proof.
  intros H. unfold round_half_even.
  rewrite (Qfloor_comp _ _ H).
  assert (E : q - inject_Z (Qfloor q') == q' - inject_Z (Qfloor q')) by (rewrite H; reflexivity).
  rewrite (Qcompare_comp _ _ E _ _ (Qeq_refl (1 # 2))). reflexivity.
Qed.


Lemma round_half_even_bounds (q : Q) :
  (Qfloor q <= round_half_even q <= Qfloor q + 1)%Z.
Proof.
  destruct (round_half_even_cases q) as [[_ E] | [[_ E] | [_ E]]]; rewrite E;
    try destruct (Z.even (Qfloor q)); lia.
Qed.

Lemma round_half_even_mono (q1 q2 : Q) :
  q1 <= q2 -> (round_half_even q1 <= round_half_even q2)%Z.
Proof.
  intros H. pose proof (Qfloor_resp_le _ _ H) as Hf.
  destruct (Z.eq_dec (Qfloor q1) (Qfloor q2)) as [Heq | Hne].
  - destruct (round_half_even_cases q1) as [[H1 E1] | [[H1 E1] | [H1 E1]]];
      destruct (round_half_even_cases q2) as [[H2 E2] | [[H2 E2] | [H2 E2]]];
      rewrite E1, E2; rewrite Heq in *;
      try destruct (Z.even (Qfloor q2)); try lia; exfalso; lra.
  - pose proof (round_half_even_bounds q1). pose proof (round_half_even_bounds q2). lia.
Qed.

Lemma round_half_even_Z (z : Z) : round_half_even (inject_Z z) = z.
Proof.
  destruct (round_half_even_cases (inject_Z z)) as [[H E] | [[H E] | [H E]]];
    rewrite Qfloor_Z in *; try exact E; exfalso; lra.
Qed.

Lemma pow10_pos (d : nat) : 0 < pow10 d.
Proof.
  unfold pow10. change 0 with (inject_Z 0). rewrite <- Zlt_Qlt.
  apply Z.pow_pos_nonneg; lia.
Qed.

Lemma round_comp (d : nat) (q q' : Q) : q == q' -> round d q == round d q'.
Proof.
  intros H. unfold round.
  rewrite (round_half_even_comp (q * pow10 d) (q' * pow10 d)); [reflexivity |].
  rewrite H. reflexivity.
Qed.

Lemma round_mono (d : nat) (q1 q2 : Q) : q1 <= q2 -> round d q1 <= round d q2.
Proof.
  intros H. unfold round. pose proof (pow10_pos d) as Hp.
  apply Qmult_le_compat_r; [| apply Qlt_le_weak, Qinv_lt_0_compat, Hp].
  rewrite <- Zle_Qle. apply round_half_even_mono.
  apply Qmult_le_compat_r; [exact H | lra].
Qed.


Lemma round_zero (d : nat) : round d 0 == 0.
Proof.
  unfold round. rewrite (round_half_even_comp _ (inject_Z 0)) by (simpl; ring).
  rewrite round_half_even_Z. unfold Qdiv. change (inject_Z 0) with 0. ring.
Qed.

Lemma round_nonneg (d : nat) (q : Q) : 0 <= q -> 0 <= round d q.
Proof.
  intros H. rewrite <- (round_zero d). now apply round_mono.
Qed.


(** ** Sums, sorting and grouping *)

Lemma Qsum_perm (l l' : list Q) : Permutation l l' -> Qsum l == Qsum l'.
Proof.
  induction 1; simpl.
  - reflexivity.
  - rewrite IHPermutation. reflexivity.
  - ring.
  - etransitivity; eassumption.
Qed.

Lemma Qsum_nonneg (l : list Q) : Forall (fun x => 0 <= x) l -> 0 <= Qsum l.
Proof.
  induction 1; simpl; lra.
Qed.


Lemma insert_sorted_perm {A : Type} (leb : A -> A -> bool) (x : A) (l : list A) :
  Permutation (insert_sorted leb x l) (x :: l).
Proof.
  induction l as [| y l IH]; simpl.
  - reflexivity.
  - destruct (leb x y).
    + reflexivity.
    + rewrite IH. apply perm_swap.
Qed.

Lemma sort_perm {A : Type} (leb : A -> A -> bool) (l : list A) :
  Permutation (sort leb l) l.
Proof.
  induction l as [| x l IH]; simpl.
  - reflexivity.
  - unfold sort in *. simpl. rewrite insert_sorted_perm. now apply perm_skip.
Qed.

Lemma group_keys_NoDup (l : list string) : List.NoDup (group_keys l).
Proof.
  unfold group_keys. eapply Permutation.Permutation_NoDup.
  - symmetry. apply sort_perm.
  - apply List.NoDup_nodup.
Qed.

Lemma group_keys_In (l : list string) (k : string) : In k (group_keys l) <-> In k l.
Proof.
  unfold group_keys. rewrite <- (nodup_In string_dec l k). split; intros H.
  - eapply Permutation_in; [apply sort_perm | exact H].
  - eapply Permutation_in; [symmetry; apply sort_perm | exact H].
Qed.

Lemma group_keys2_In (l : list (string * string)) (k : string * string) :
  In k (group_keys2 l) <-> In k l.
Proof.
  unfold group_keys2. rewrite <- (nodup_In string_pair_eq_dec l k). split; intros H.
  - eapply Permutation_in; [apply sort_perm | exact H].
  - eapply Permutation_in; [symmetry; apply sort_perm | exact H].
Qed.

Lemma mem_In (c : string) (l : list string) : mem c l = true <-> In c l.
Proof.
  unfold mem. rewrite existsb_exists. split.
  - intros [x [Hx E]]. apply String.eqb_eq in E. now subst.
  - intros H. exists c. split; [exact H | apply String.eqb_refl].
Qed.

Lemma mem_perm (c : string) (l l' : list string) :
  Permutation l l' -> mem c l = mem c l'.
Proof.
  intros H. apply eq_true_iff_eq. rewrite !mem_In.
  split; apply Permutation_in; [exact H | symmetry; exact H].
Qed.

Section Partition.

Context {R : Type} (key : R -> string) (f : R -> Q).

Lemma Qsum_filter_split (p q : R -> bool) (l : list R) :
  (forall r, p r && q r = false) ->
  Qsum (map f (List.filter (fun r => p r || q r) l))
  == Qsum (map f (List.filter p l)) + Qsum (map f (List.filter q l)).
Proof using Type.
  intros Hpq. induction l as [| r l IH]; simpl.
  - ring.
  - specialize (Hpq r). destruct (p r), (q r); simpl in *; try discriminate;
      rewrite IH; ring.
Qed.

(** Summing group by group is summing the rows whose key is one of the
    groups'. *)
Lemma Qsum_by_group (ks : list string) (l : list R) :
  List.NoDup ks ->
  Qsum (map (fun k => Qsum (map f (List.filter (fun r => String.eqb (key r) k) l))) ks)
  == Qsum (map f (List.filter (fun r => mem (key r) ks) l)).
Proof using Type.
  induction 1 as [| k ks Hk Hnd IH]; simpl.
  - induction l as [| r l IHl]; simpl; [reflexivity | exact IHl].
  - rewrite IH. rewrite <- Qsum_filter_split.
    + reflexivity.
    + intros r. destruct (String.eqb_spec (key r) k) as [E | E]; [| reflexivity].
      simpl. apply not_true_is_false. rewrite mem_In. now rewrite E.
Qed.

End Partition.

Close Scope Q_scope.

(** ** Strings *)

Lemma lower_upper_char (c : ascii) : lower_char (upper_char c) = lower_char c.
Proof. destruct c as [[] [] [] [] [] [] [] []]; vm_compute; reflexivity. Qed.

Lemma is_space_lower_char (c : ascii) : is_space (lower_char c) = is_space c.
Proof. destruct c as [[] [] [] [] [] [] [] []]; vm_compute; reflexivity. Qed.

Lemma lower_upper (s : string) : lower (upper s) = lower s.
Proof.
  induction s as [| c s IH]; [reflexivity |].
  unfold lower, upper in *. cbn [map_string]. now rewrite lower_upper_char, IH.
Qed.

Lemma map_string_empty (f : ascii -> ascii) (s : string) :
  String.eqb (map_string f s) EmptyString = String.eqb s EmptyString.
Proof. destruct s; reflexivity. Qed.

Lemma lower_lstrip (s : string) : lower (lstrip s) = lstrip (lower s).
Proof.
  induction s as [| c s IH]; [reflexivity |].
  unfold lower in *. cbn [lstrip map_string]. rewrite is_space_lower_char.
  destruct (is_space c); [exact IH | reflexivity].
Qed.

Lemma lower_rstrip (s : string) : lower (rstrip s) = rstrip (lower s).
Proof.
  induction s as [| c s IH]; [reflexivity |].
  unfold lower in *. cbn [rstrip map_string].
  rewrite is_space_lower_char, <- IH, map_string_empty.
  destruct (is_space c && String.eqb (rstrip s) EmptyString); reflexivity.
Qed.

Lemma lower_strip (s : string) : lower (strip s) = strip (lower s).
Proof. unfold strip. now rewrite lower_rstrip, lower_lstrip. Qed.

Lemma prefix_empty (s : string) : String.prefix EmptyString s = true.
Proof. destruct s; reflexivity. Qed.

Lemma prefix_cons (a b : ascii) (p s : string) :
  String.prefix (String a p) (String b s) = true <-> a = b /\ String.prefix p s = true.
Proof.
  cbn [String.prefix]. destruct (ascii_dec a b) as [E | E].
  - tauto.
  - split; [discriminate | tauto].
Qed.

Lemma prefix_trans (p : string) :
  forall q s, String.prefix p q = true -> String.prefix q s = true ->
              String.prefix p s = true.
Proof.
  induction p as [| a p IH]; intros q s Hpq Hqs; [apply prefix_empty |].
  destruct q as [| b q]; [discriminate |].
  destruct s as [| c s]; [discriminate |].
  apply prefix_cons in Hpq, Hqs. destruct Hpq as [-> Hpq]. destruct Hqs as [-> Hqs].
  apply prefix_cons. split; [reflexivity | now apply (IH q)].
Qed.

Lemma contains_cons (p : string) (c : ascii) (s : string) :
  contains p s = true -> contains p (String c s) = true.
Proof. intros H. cbn [contains]. rewrite H. apply orb_true_r. Qed.

Lemma prefix_contains (q : string) :
  forall s, String.prefix q s = true ->
  forall p, contains p q = true -> contains p s = true.
Proof.
  induction q as [| b q IH]; intros s Hqs p Hpq.
  - cbn [contains] in Hpq. rewrite orb_false_r in Hpq.
    destruct p; [| discriminate]. destruct s; reflexivity.
  - destruct s as [| c s]; [discriminate |].
    pose proof Hqs as Hqs'. apply prefix_cons in Hqs'. destruct Hqs' as [-> Hqs'].
    cbn [contains] in Hpq. apply orb_true_iff in Hpq. destruct Hpq as [Hpq | Hpq].
    + cbn [contains]. rewrite (prefix_trans p _ _ Hpq Hqs). reflexivity.
    + apply contains_cons. now apply (IH s).
Qed.

Lemma contains_trans (p q s : string) :
  contains p q = true -> contains q s = true -> contains p s = true.
Proof.
  intros Hpq. induction s as [| c s IH]; intros Hqs.
  - cbn [contains] in Hqs. rewrite orb_false_r in Hqs.
    now apply (prefix_contains q).
  - cbn [contains] in Hqs. apply orb_true_iff in Hqs. destruct Hqs as [Hqs | Hqs].
    + now apply (prefix_contains q).
    + apply contains_cons. now apply IH.
Qed.

(** A pattern that starts with a character other than white space is found
    in a string exactly when it is found in the stripped string. *)
Lemma contains_lstrip (a : ascii) (p s : string) :
  is_space a = false -> contains (String a p) (lstrip s) = contains (String a p) s.
Proof.
  intros Ha. induction s as [| c s IH]; [reflexivity |].
  cbn [lstrip]. destruct (is_space c) eqn:Ec; [| reflexivity].
  rewrite IH. cbn [contains String.prefix].
  destruct (ascii_dec a c) as [-> | _]; [congruence | reflexivity].
Qed.

Lemma prefix_rstrip (s : string) :
  forall p, no_space p = true -> String.prefix p (rstrip s) = String.prefix p s.
Proof.
  induction s as [| c s IH]; intros p Hp; [reflexivity |].
  destruct p as [| a p]; [now rewrite !prefix_empty |].
  cbn [no_space] in Hp. apply andb_prop in Hp. destruct Hp as [Ha Hp].
  apply negb_true_iff in Ha.
  cbn [rstrip]. destruct (is_space c && String.eqb (rstrip s) EmptyString) eqn:E.
  - apply andb_prop in E. destruct E as [Ec _].
    cbn [String.prefix]. destruct (ascii_dec a c) as [-> | _]; [congruence | reflexivity].
  - cbn [String.prefix]. destruct (ascii_dec a c); [now apply IH | reflexivity].
Qed.

Lemma contains_rstrip (a : ascii) (p s : string) :
  no_space (String a p) = true ->
  contains (String a p) (rstrip s) = contains (String a p) s.
Proof.
  intros Hp. induction s as [| c s IH]; [reflexivity |].
  cbn [contains]. rewrite <- IH.
  rewrite <- (prefix_rstrip (String c s) _ Hp).
  cbn [rstrip]. destruct (is_space c && String.eqb (rstrip s) EmptyString) eqn:E.
  - apply andb_prop in E. destruct E as [_ E]. apply String.eqb_eq in E. rewrite E.
    reflexivity.
  - cbn [contains]. reflexivity.
Qed.

Lemma contains_strip (a : ascii) (p s : string) :
  no_space (String a p) = true ->
  contains (String a p) (strip s) = contains (String a p) s.
Proof.
  intros Hp. unfold strip. rewrite contains_rstrip by exact Hp.
  apply contains_lstrip. cbn [no_space] in Hp. apply andb_prop in Hp.
  now apply negb_true_iff.
Qed.

(** Every pattern of the summary rows contains TOTAL, so the test is the
    test for TOTAL. *)
Lemma is_total_total (value : string) : is_total value = contains "total" (lower value).
Proof.
  unfold is_total, patrones_totales, contains_nocase. cbn [existsb].
  change (lower "TOTAL") with "total".
  destruct (contains "total" (lower value)) eqn:E; [reflexivity |].
  rewrite orb_false_r.
  repeat match goal with
  | |- context [contains (lower ?p) (lower value)] =>
      let H := fresh in
      destruct (contains (lower p) (lower value)) eqn:H;
      [ apply (contains_trans "total") in H; [congruence | vm_compute; reflexivity] | ]
  end.
  reflexivity.
Qed.

(** Trimming and upper-casing a value does not change whether it is a
    summary label. *)
Lemma is_total_clean (value : string) : is_total (upper (strip value)) = is_total value.
Proof.
  rewrite !is_total_total, lower_upper, lower_strip.
  apply contains_strip. reflexivity.
Qed.

(** ** Column normalisation *)

Lemma fuzzy_step_other (st : gmap string string * bool) (col c : string) :
  c <> col -> fst (fuzzy_step st col) !! c = fst st !! c.
Proof.
  intros Hne. unfold fuzzy_step.
  destruct (negb (snd st) && is_articulo _); simpl.
  - now rewrite lookup_insert_ne.
  - destruct (other_target _); simpl; [now rewrite lookup_insert_ne | reflexivity].
Qed.

Lemma fuzzy_fold_other (cols : list string) (c : string) :
  ~ In c cols ->
  forall st, fst (fold_left fuzzy_step cols st) !! c = fst st !! c.
Proof.
  induction cols as [| col cols IH]; intros Hnin st; simpl; [reflexivity |].
  rewrite IH by (intros H; apply Hnin; now right).
  apply fuzzy_step_other. intros ->. apply Hnin. now left.
Qed.

(** Without repeated labels the dictionary plays no part: every column gets
    the label that its own position in the loop gives it. *)
Lemma rename_assign (cols : list string) :
  List.NoDup cols ->
  forall (m : gmap string string) (found : bool),
  (forall c, In c cols -> m !! c = None) ->
  map (rename (fst (fold_left fuzzy_step cols (m, found)))) cols = assign found cols.
Proof.
  induction 1 as [| col cols Hnin Hnd IH]; intros m found Hm; [reflexivity |].
  cbn [fold_left map assign].
  assert (Hhead : fst (fold_left fuzzy_step cols (fuzzy_step (m, found) col)) !! col
                  = fst (fuzzy_step (m, found) col) !! col)
    by now apply fuzzy_fold_other.
  assert (Hcol : m !! col = None) by (apply Hm; now left).
  assert (Htail : forall m', (forall c, In c cols -> m' !! c = None) ->
                  forall f, map (rename (fst (fold_left fuzzy_step cols (m', f)))) cols
                            = assign f cols) by (intros; now apply IH).
  assert (Hfresh : forall t c, In c cols -> <[col := t]> m !! c = None).
  { intros t c Hc. rewrite lookup_insert_ne; [apply Hm; now right |].
    intros ->. contradiction. }
  unfold rename at 1. rewrite Hhead. unfold fuzzy_step. cbn [fst snd].
  destruct (negb found && is_articulo (remove_accents (lower col))).
  - cbn [fst]. rewrite lookup_insert_eq. f_equal. apply Htail. apply Hfresh.
  - destruct (other_target (remove_accents (lower col))) as [t |].
    + cbn [fst]. rewrite lookup_insert_eq. f_equal. apply Htail. apply Hfresh.
    + cbn [fst]. rewrite Hcol. f_equal. apply Htail. intros c Hc. apply Hm. now right.
Qed.

Lemma other_target_values (x t : string) :
  other_target x = Some t ->
  t = "Descripcion" \/ t = "Cantidad" \/ t = "Precio" \/ t = "Total_precio".
Proof.
  unfold other_target.
  repeat match goal with |- context [if ?b then _ else _] => destruct b end;
    intros H; inversion H; auto.
Qed.

Lemma target_settled (t : string) (found : bool) :
  t = "Descripcion" \/ t = "Cantidad" \/ t = "Precio" \/ t = "Total_precio" ->
  negb found && is_articulo (remove_accents (lower t)) = false
  /\ other_target (remove_accents (lower t)) = Some t.
Proof.
  intros [-> | [-> | [-> | ->]]]; destruct found; split; vm_compute; reflexivity.
Qed.

Lemma assign_settled (cols : list string) :
  forall found, settled found (assign found cols).
Proof.
  induction cols as [| col cols IH]; intros found; [exact I |].
  cbn [assign].
  destruct (negb found && is_articulo (remove_accents (lower col))) eqn:E.
  - cbn [settled].
    replace (negb found && is_articulo (remove_accents (lower "Articulo"))) with true.
    + split; [reflexivity | apply IH].
    + apply andb_prop in E. destruct E as [E _]. rewrite E. vm_compute. reflexivity.
  - destruct (other_target (remove_accents (lower col))) as [t |] eqn:Et.
    + cbn [settled]. apply other_target_values in Et.
      destruct (target_settled t found Et) as [E1 E2]. rewrite E1, E2.
      split; [reflexivity | apply IH].
    + cbn [settled]. rewrite E, Et. split; [exact I | apply IH].
Qed.

Lemma settled_self_mapped (cols : list string) :
  forall (m : gmap string string) (found : bool),
  settled found cols -> self_mapped m ->
  self_mapped (fst (fold_left fuzzy_step cols (m, found))).
Proof.
  induction cols as [| col cols IH]; intros m found Hs Hm; [exact Hm |].
  cbn [fold_left]. cbn [settled] in Hs. unfold fuzzy_step at 2. cbn [fst snd].
  destruct (negb found && is_articulo (remove_accents (lower col))).
  - destruct Hs as [-> Hs]. apply IH; [exact Hs |].
    intros k v. rewrite lookup_insert. case_decide; [congruence | apply Hm].
  - destruct (other_target (remove_accents (lower col))) as [t |]; destruct Hs as [Ht Hs].
    + subst t. apply IH; [exact Hs |].
      intros k v. rewrite lookup_insert. case_decide; [congruence | apply Hm].
    + apply IH; assumption.
Qed.

Lemma rename_self_mapped (m : gmap string string) (cols : list string) :
  self_mapped m -> map (rename m) cols = cols.
Proof.
  intros Hm. rewrite <- (map_id cols) at 2. apply map_ext. intros c.
  unfold rename. destruct (m !! c) as [v |] eqn:E; [now apply Hm | reflexivity].
Qed.

(** Labels that cleaning leaves alone and that are settled are a fixed point
    of the normalisation. *)
Lemma settled_fixed_point (df : DataFrame) :
  map clean_label (columns df) = columns df ->
  settled false (columns df) ->
  In "Articulo" (columns df) ->
  super_normalize_columns df = Ok df.
Proof.
  intros Hc Hs Hin. unfold super_normalize_columns. rewrite Hc.
  unfold fuzzy_detection. rewrite rename_self_mapped.
  - apply mem_In in Hin. rewrite Hin. now destruct df.
  - apply settled_self_mapped; [exact Hs |]. intros k v. now rewrite lookup_empty.
Qed.

Lemma canonical_settled (cols : list string) :
  Forall (fun c => In c canonical_labels) cols -> forall found, settled found cols.
Proof.
  induction 1 as [| c cols Hc Hcols IH]; intros found; [exact I |].
  assert (Ht : forall f, settled f cols) by exact IH.
  simpl in Hc.
  destruct Hc as [<- | [<- | [<- | [<- | [<- | [<- | []]]]]]]; destruct found;
    cbn [settled];
    match goal with
    | |- context [negb ?f && is_articulo ?x] =>
        let b := eval vm_compute in (negb f && is_articulo x) in
        change (negb f && is_articulo x) with b
    end; cbv iota;
    try match goal with
    | |- context [other_target ?x] =>
        let b := eval vm_compute in (other_target x) in
        change (other_target x) with b
    end; cbv iota; split; auto.
Qed.

Lemma canonical_clean (cols : list string) :
  Forall (fun c => In c canonical_labels) cols -> map clean_label cols = cols.
Proof.
  induction 1 as [| c cols Hc Hcols IH]; [reflexivity |].
  cbn [map]. rewrite IH. f_equal. simpl in Hc.
  destruct Hc as [<- | [<- | [<- | [<- | [<- | [<- | []]]]]]]; vm_compute; reflexivity.
Qed.

Lemma assign_clean (cols : list string) :
  Forall (fun c => clean_label c = c) cols ->
  forall found, map clean_label (assign found cols) = assign found cols.
Proof.
  induction 1 as [| c cols Hc Hcols IH]; intros found; [reflexivity |].
  cbn [assign].
  destruct (negb found && is_articulo (remove_accents (lower c))).
  - cbn [map]. rewrite IH. reflexivity.
  - destruct (other_target (remove_accents (lower c))) as [t |] eqn:Et; cbn [map]; rewrite IH.
    + f_equal. apply other_target_values in Et.
      destruct Et as [-> | [-> | [-> | ->]]]; vm_compute; reflexivity.
    + now rewrite Hc.
Qed.

(** C9, amended. A table whose labels are canonical and include Articulo is
    left unchanged, labels and cells; and applying the normalisation twice
    gives what applying it once gives for every table whose cleaned labels
    are pairwise distinct and are themselves unchanged by the cleaning. *)
Theorem C9_normalization_idempotent :
  (forall df : DataFrame,
      Forall (fun c => In c canonical_labels) (columns df) ->
      In "Articulo" (columns df) ->
      super_normalize_columns df = Ok df)
  /\
  (forall df : DataFrame,
      List.NoDup (map clean_label (columns df)) ->
      Forall (fun c => clean_label (clean_label c) = clean_label c) (columns df) ->
      normalize_twice df = super_normalize_columns df).
Proof.
  split.
  - intros df Hcan Hin. apply settled_fixed_point.
    + now apply canonical_clean.
    + now apply canonical_settled.
    + exact Hin.
  - intros df Hnd Hclean.
    assert (E1 : super_normalize_columns df
                 = if mem "Articulo" (assign false (map clean_label (columns df)))
                   then Ok {| columns := assign false (map clean_label (columns df));
                              rows := rows df |}
                   else Err KeyError).
    { unfold super_normalize_columns, fuzzy_detection.
      rewrite rename_assign; [reflexivity | exact Hnd | intros c _; apply lookup_empty]. }
    unfold normalize_twice. rewrite E1.
    destruct (mem "Articulo" (assign false (map clean_label (columns df)))) eqn:E;
      [| reflexivity].
    cbn [bind]. apply settled_fixed_point; cbn [columns].
    + apply assign_clean. apply List.Forall_forall. intros c Hc.
      apply in_map_iff in Hc. destruct Hc as [c0 [<- Hc0]].
      rewrite List.Forall_forall in Hclean. now apply Hclean.
    + apply assign_settled.
    + now apply mem_In.
Qed.

Lemma C9_witness :
  (Forall (fun c => In c canonical_labels) (columns tabla_canonica)
   /\ In "Articulo" (columns tabla_canonica)
   /\ super_normalize_columns tabla_canonica = Ok tabla_canonica)
  /\
  (List.NoDup (map clean_label (columns tabla_sin_repetidas))
   /\ Forall (fun c => clean_label (clean_label c) = clean_label c)
             (columns tabla_sin_repetidas)
   /\ normalize_twice tabla_sin_repetidas = super_normalize_columns tabla_sin_repetidas).
Proof.
  assert (H1 : Forall (fun c => In c canonical_labels) (columns tabla_canonica)).
  { repeat (apply List.Forall_cons; [simpl; auto 10 |]). apply List.Forall_nil. }
  assert (H2 : In "Articulo" (columns tabla_canonica)) by (simpl; auto).
  assert (H3 : List.NoDup (map clean_label (columns tabla_sin_repetidas))).
  { vm_compute. repeat constructor; simpl; intuition discriminate. }
  assert (H4 : Forall (fun c => clean_label (clean_label c) = clean_label c)
                      (columns tabla_sin_repetidas)).
  { repeat (apply List.Forall_cons; [vm_compute; reflexivity |]). apply List.Forall_nil. }
  split.
  - split; [exact H1 | split; [exact H2 |]].
    exact (proj1 C9_normalization_idempotent tabla_canonica H1 H2).
  - split; [exact H3 | split; [exact H4 |]].
    exact (proj2 C9_normalization_idempotent tabla_sin_repetidas H3 H4).
Defined.

(** A trailing spacing accent becomes a trailing space on the first
    application, and the second one trims it. *)
Lemma C9_counterexample :
  option_map columns
    (match super_normalize_columns tabla_acento with Ok t => Some t | Err _ => None end)
  = Some ["Articulo"; "x "]
  /\ option_map columns
       (match normalize_twice tabla_acento with Ok t => Some t | Err _ => None end)
     = Some ["Articulo"; "x"]
  /\ normalize_twice tabla_acento <> super_normalize_columns tabla_acento.
Proof.
  split; [vm_compute; reflexivity | split; [vm_compute; reflexivity |]].
  vm_compute. discriminate.
Qed.

(** With a repeated label the second application renames one more column. *)
Example normalize_twice_repeated_label :
  option_map columns
    (match super_normalize_columns tabla_repetida with Ok t => Some t | Err _ => None end)
  = Some ["Descripcion"; "sku"; "Articulo"; "Descripcion"]
  /\ option_map columns
       (match normalize_twice tabla_repetida with Ok t => Some t | Err _ => None end)
     = Some ["Descripcion"; "Articulo"; "Articulo"; "Descripcion"].
Proof. split; vm_compute; reflexivity. Qed.

(** *** The Articulo column *)

Lemma fuzzy_fold_no_match (cols : list string) :
  Forall (fun c => is_articulo (remove_accents (lower c)) = false) cols ->
  forall m : gmap string string,
  (forall k v, m !! k = Some v -> v <> "Articulo") ->
  forall k v, fst (fold_left fuzzy_step cols (m, false)) !! k = Some v -> v <> "Articulo".
Proof.
  induction 1 as [| c cols Hc Hcols IH]; intros m Hm; [exact Hm |].
  cbn [fold_left]. unfold fuzzy_step at 2. cbn [fst snd]. rewrite Hc. cbn [negb andb].
  destruct (other_target (remove_accents (lower c))) as [t |] eqn:Et.
  - apply IH. intros k v. rewrite lookup_insert. case_decide.
    + intros [= <-]. apply other_target_values in Et.
      destruct Et as [-> | [-> | [-> | ->]]]; discriminate.
    + apply Hm.
  - now apply IH.
Qed.

(** When no cleaned label matches, no column is called Articulo and the
    schema error is raised. *)
Lemma no_match_KeyError (df : DataFrame) :
  Forall (fun c => is_articulo (remove_accents (lower (clean_label c))) = false)
         (columns df) ->
  super_normalize_columns df = Err KeyError.
Proof.
  intros H. unfold super_normalize_columns.
  assert (Hc : Forall (fun c => is_articulo (remove_accents (lower c)) = false)
                      (map clean_label (columns df))).
  { apply List.Forall_forall. intros c Hin. apply in_map_iff in Hin.
    destruct Hin as [c0 [<- Hc0]]. rewrite List.Forall_forall in H. now apply H. }
  destruct (mem "Articulo" _) eqn:E; [| reflexivity]. exfalso.
  apply mem_In, in_map_iff in E. destruct E as [c [Hr Hin]].
  unfold rename in Hr.
  destruct (fuzzy_detection (map clean_label (columns df)) !! c) as [v |] eqn:El.
  - subst v. unfold fuzzy_detection in El.
    apply (fuzzy_fold_no_match _ Hc ∅) in El; [congruence |].
    intros k v. now rewrite lookup_empty.
  - subst c. rewrite List.Forall_forall in Hc. specialize (Hc _ Hin).
    vm_compute in Hc. discriminate.
Qed.

(** A table that is returned has a column called Articulo, and its cells
    are those of the input. *)
Lemma normalized_has_articulo (df out : DataFrame) :
  super_normalize_columns df = Ok out ->
  In "Articulo" (columns out) /\ rows out = rows df
  /\ length (columns out) = length (columns df).
Proof.
  unfold super_normalize_columns. destruct (mem "Articulo" _) eqn:E; [| discriminate].
  intros [= <-]. cbn [columns rows]. repeat split.
  - now apply mem_In.
  - now rewrite !length_map.
Qed.

Lemma count_assign (cols : list string) :
  ~ In "Articulo" cols ->
  forall found,
  (count_occ string_dec (assign found cols) "Articulo" <= if found then 0 else 1)%nat.
Proof.
  induction cols as [| c cols IH]; intros Hnin found.
  - destruct found; cbn; lia.
  - assert (Hc : c <> "Articulo") by (intros ->; apply Hnin; now left).
    assert (Hcols : ~ In "Articulo" cols) by (intros H; apply Hnin; now right).
    cbn [assign].
    destruct (negb found && is_articulo (remove_accents (lower c))) eqn:E.
    + apply andb_prop in E. destruct E as [E _]. apply negb_true_iff in E. subst found.
      rewrite count_occ_cons_eq by reflexivity.
      specialize (IH Hcols true). cbn in IH. lia.
    + destruct (other_target (remove_accents (lower c))) as [t |] eqn:Et.
      * apply other_target_values in Et.
        rewrite count_occ_cons_neq
          by (destruct Et as [-> | [-> | [-> | ->]]]; discriminate).
        now apply IH.
      * rewrite count_occ_cons_neq by exact Hc. now apply IH.
Qed.

(** With pairwise distinct cleaned labels, none of which is Articulo
    already, the returned table has exactly one column of that name. *)
Lemma articulo_unique (df out : DataFrame) :
  List.NoDup (map clean_label (columns df)) ->
  ~ In "Articulo" (map clean_label (columns df)) ->
  super_normalize_columns df = Ok out ->
  count_occ string_dec (columns out) "Articulo" = 1%nat.
Proof.
  intros Hnd Hnin H.
  pose proof (normalized_has_articulo df out H) as [Hin _].
  apply (count_occ_In string_dec) in Hin.
  unfold super_normalize_columns, fuzzy_detection in H.
  rewrite rename_assign in H; [| exact Hnd | intros c _; apply lookup_empty].
  destruct (mem "Articulo" _); [| discriminate]. injection H as <-.
  cbn [columns] in *.
  pose proof (count_assign _ Hnin false) as Hle. cbn in Hle. lia.
Qed.

(** C2, at a table with a code column followed by an item column: the code
    column is renamed, the item column keeps its label, and the returned
    table has two columns called Articulo. *)
Theorem C2_two_articulo_columns :
  super_normalize_columns tabla_codigo_articulo
  = Ok {| columns := ["Articulo"; "Articulo"; "Total_precio"];
          rows := rows tabla_codigo_articulo |}
  /\ count_occ string_dec ["Articulo"; "Articulo"; "Total_precio"] "Articulo" = 2%nat.
Proof. split; vm_compute; reflexivity. Qed.

(** The cleaner cannot read the identity of such a table. *)
Example two_articulo_columns_break_cleaning :
  (do df <- super_normalize_columns tabla_codigo_articulo; clean_data df)
  = Err AttributeError.
Proof. vm_compute. reflexivity. Qed.

(** *** The validity predicate of the sniffer *)

Lemma existsb_filter_length {X : Type} (p : X -> bool) (l : list X) :
  existsb p l = true -> (1 <= length (List.filter p l))%nat.
Proof.
  induction l as [| x l IH]; simpl; [discriminate |].
  destruct (p x); simpl; [lia | exact IH].
Qed.

Lemma matches_ge_matching (cols : list string) :
  (length (List.filter
             (fun c => existsb (fun kw => contains kw (remove_accents (lower c))) keywords)
             cols)
   <= length (flat_map (fun col => List.filter (fun kw => contains kw col) keywords)
                       (map (fun c => remove_accents (lower c)) cols)))%nat.
Proof.
  induction cols as [| c cols IH]; [apply Nat.le_refl |].
  cbn [List.filter map flat_map]. rewrite length_app.
  destruct (existsb _ keywords) eqn:E.
  - apply existsb_filter_length in E. cbn [length]. lia.
  - lia.
Qed.

(** Two matching columns are enough for the predicate of the source. *)
Lemma valid_as_specified_sound (df : DataFrame) :
  valid_as_specified df = true -> has_valid_columns df = true.
Proof.
  unfold valid_as_specified, has_valid_columns, matching_columns.
  intros H. apply andb_prop in H. destruct H as [H H2].
  apply andb_prop in H. destruct H as [H0 H1].
  apply negb_true_iff in H0. rewrite H0. cbn [orb].
  apply Nat.leb_le in H1, H2.
  destruct (length (columns df) <? 3)%nat eqn:E3; [apply Nat.ltb_lt in E3; lia |].
  apply Nat.leb_le. pose proof (matches_ge_matching (columns df)). lia.
Qed.

(** C7, at a parse with the single matching column "Precio total", which
    contains two keywords: the source counts keyword hits, not columns, and
    accepts the parse. *)
Theorem C7_keyword_hits_not_columns :
  has_valid_columns parse_precio_total = true
  /\ matching_columns parse_precio_total = ["Precio total"]
  /\ valid_as_specified parse_precio_total = false.
Proof. repeat split; vm_compute; reflexivity. Qed.

(** ** The consolidation *)

Lemma extract_fold (files : list csv_file) :
  forall st : list DataFrame * list string,
  fold_left extract_step files st
  = ((fst st ++ frames_read files)%list,
     (snd st ++ map filepath (List.filter (fun f => negb (readable f)) files))%list).
Proof.
  induction files as [| f files IH]; intros [dfs log].
  - cbn. now rewrite !app_nil_r.
  - cbn [fold_left]. rewrite IH. unfold extract_step, frames_read, readable.
    cbn [flat_map List.filter fst snd].
    destruct (smart_read_csv f) as [df | e]; cbn [negb map fst snd].
    + now rewrite <- app_assoc.
    + now rewrite <- app_assoc.
Qed.

Lemma extract_loop_spec (files : list csv_file) :
  extract_loop files
  = (frames_read (sort by_path files),
     map filepath (List.filter (fun f => negb (readable f)) (sort by_path files))).
Proof. unfold extract_loop. now rewrite extract_fold. Qed.

(** An exception raised by the normaliser propagates out of [run_pipeline]. *)
Lemma normalization_error_aborts (files : list csv_file) (df : DataFrame) (e : error) :
  fst (extract_all_files files) = Ok df ->
  super_normalize_columns df = Err e ->
  fst (run_pipeline files) = Err e.
Proof.
  intros H1 H2. unfold run_pipeline. cbn [fst]. rewrite H1. cbn [bind]. now rewrite H2.
Qed.

(** C3, amended. A file that cannot be read is logged and skipped, and the
    consolidated table is made of the files that can be read, in the order of
    their paths; the run fails for want of data only when none can.  The
    normalisation runs once, on the consolidated table, and its schema error
    ends the run. *)
Theorem C3_unreadable_files_skipped (files : list csv_file) :
  files <> [] ->
  snd (extract_all_files files)
  = map filepath (List.filter (fun f => negb (readable f)) (sort by_path files))
  /\ snd (run_pipeline files) = snd (extract_all_files files)
  /\ fst (extract_all_files files)
     = match frames_read (sort by_path files) with
       | [] => Err ValueError
       | dataframes => Ok (concat dataframes)
       end
  /\ (forall df e, fst (extract_all_files files) = Ok df ->
                   super_normalize_columns df = Err e ->
                   fst (run_pipeline files) = Err e).
Proof.
  intros Hne.
  assert (E : extract_all_files files
              = match frames_read (sort by_path files) with
                | [] => (Err ValueError,
                         map filepath (List.filter (fun f => negb (readable f))
                                                   (sort by_path files)))
                | d :: ds => (Ok (concat (d :: ds)),
                              map filepath (List.filter (fun f => negb (readable f))
                                                        (sort by_path files)))
                end).
  { unfold extract_all_files. destruct files as [| f files]; [congruence |].
    rewrite extract_loop_spec. cbn [fst snd]. reflexivity. }
  split; [| split; [| split]].
  - rewrite E. destruct (frames_read (sort by_path files)); reflexivity.
  - reflexivity.
  - rewrite E. destruct (frames_read (sort by_path files)); reflexivity.
  - intros df e. apply normalization_error_aborts.
Qed.

Lemma C3_witness :
  [archivo_roto; archivo_centro] <> []
  /\ snd (extract_all_files [archivo_roto; archivo_centro]) = ["data/raw/roto.csv"]
  /\ fst (extract_all_files [archivo_roto; archivo_centro])
     = fst (extract_all_files [archivo_centro]).
Proof.
  assert (Hne : [archivo_roto; archivo_centro] <> []) by discriminate.
  destruct (C3_unreadable_files_skipped [archivo_roto; archivo_centro] Hne)
    as (Hlog & _ & Hres & _).
  split; [exact Hne | split].
  - rewrite Hlog. vm_compute. reflexivity.
  - rewrite Hres. vm_compute. reflexivity.
Defined.

(** The file [archivo_norte] has no identity column, so its own table fails
    the normalisation.  The run does not log it and does not skip it: its
    rows are consolidated with those of [archivo_centro], the two total
    columns get the same label, and the cleaner raises. *)
Lemma C3_counterexample :
  file_fails archivo_norte = true
  /\ snd (run_pipeline [archivo_centro; archivo_norte]) = []
  /\ fst (run_pipeline [archivo_centro; archivo_norte]) = Err TypeError
  /\ (exists t, fst (run_pipeline [archivo_centro]) = Ok t)
  /\ ~ skips_failing_files [archivo_centro; archivo_norte].
Proof.
  assert (Hf : file_fails archivo_norte = true) by (vm_compute; reflexivity).
  assert (Hl : snd (run_pipeline [archivo_centro; archivo_norte]) = [])
    by (vm_compute; reflexivity).
  split; [exact Hf | split; [exact Hl | split; [| split]]].
  - vm_compute. reflexivity.
  - eexists. vm_compute. reflexivity.
  - intros [_ Hlog].
    specialize (Hlog archivo_norte (or_intror (or_introl eq_refl)) Hf).
    rewrite Hl in Hlog. exact Hlog.
Qed.

(** The rows of the failing file are part of the normalised table. *)
Example failing_file_is_consolidated :
  option_map (fun df => length (rows df))
    (match (do raw <- fst (extract_all_files [archivo_centro; archivo_norte]);
            super_normalize_columns raw) with
     | Ok df => Some df
     | Err _ => None
     end)
  = Some 3%nat.
Proof. vm_compute. reflexivity. Qed.

(** Both files without an identity column: the schema error of the
    normaliser ends the run, and nothing is logged. *)
Example schema_error_ends_the_run :
  run_pipeline [archivo_norte] = (Err KeyError, []).
Proof. vm_compute. reflexivity. Qed.

(** ** The Pareto engine *)

Open Scope Q_scope.

Lemma filter_map_comm {X Y : Type} (p : Y -> bool) (g : X -> Y) (l : list X) :
  List.filter p (map g l) = map g (List.filter (fun x => p (g x)) l).
Proof.
  induction l as [| x l IH]; simpl; [reflexivity |].
  destruct (p (g x)); simpl; now rewrite IH.
Qed.

(** What a successful run of [calculate_pareto] returns. *)
Lemma calculate_pareto_Ok (df : Clean.frame) (out : tablas) :
  calculate_pareto df = Ok out ->
  let fact := build_fact (Clean.columns df) (Clean.rows df) in
  let sorted := pareto_items (build_items (Clean.columns df) (Clean.rows df) fact) in
  sorted <> [] /\
  dim_articulos out = build_dim sorted /\
  fact_ventas out = fact_filtrado fact (build_dim sorted).
Proof.
  intros H fact sorted. unfold calculate_pareto in H.
  destruct (negb _); [discriminate |].
  destruct (_ || _); [discriminate |].
  fold fact in H. fold sorted in H.
  destruct sorted as [| it sorted']; [discriminate |].
  inversion H; subst; simpl. repeat split; congruence.
Qed.

Lemma rank_rows_fields (items : list Item.row) :
  forall (globales acumulados : list Q) (rankings : list nat),
  length globales = length items ->
  length acumulados = length items ->
  length rankings = length items ->
  map Dim.Venta_Neta_Total (rank_rows items globales acumulados rankings)
  = map Item.Venta_Neta_Total items
  /\ map Dim.Articulo (rank_rows items globales acumulados rankings)
     = map Item.Articulo items
  /\ map Dim.Porcentaje_Acumulado (rank_rows items globales acumulados rankings)
     = acumulados
  /\ map Dim.Ranking (rank_rows items globales acumulados rankings) = rankings
  /\ map Dim.Porcentaje_Articulo_Global (rank_rows items globales acumulados rankings)
     = globales.
Proof.
  induction items as [| it items IH]; intros [| g gs] [| a acs] [| k ks] Hg Ha Hk;
    simpl in *; try discriminate; [repeat split |].
  destruct (IH gs acs ks) as (H1 & H2 & H3 & H4 & H5); [lia | lia | lia |].
  rewrite H1, H2, H3, H4, H5. repeat split.
Qed.


Lemma cumsum_from_length (l : list Q) : forall acc, length (cumsum_from acc l) = length l.
Proof.
  induction l as [| x l IH]; intros acc; simpl; [reflexivity | now rewrite IH].
Qed.

Lemma build_dim_fields (sorted : list Item.row) :
  let total_positivo := Qsum (map Item.Venta_Neta_Total sorted) in
  let globales :=
    map (fun it => round 4 (Item.Venta_Neta_Total it / total_positivo)) sorted in
  map Dim.Venta_Neta_Total (build_dim sorted) = map Item.Venta_Neta_Total sorted
  /\ map Dim.Articulo (build_dim sorted) = map Item.Articulo sorted
  /\ map Dim.Porcentaje_Acumulado (build_dim sorted) = map (round 4) (cumsum globales)
  /\ map Dim.Ranking (build_dim sorted) = seq 1 (length sorted)
  /\ map Dim.Porcentaje_Articulo_Global (build_dim sorted) = globales.
Proof.
  intros total_positivo globales. unfold build_dim. fold total_positivo. fold globales.
  apply rank_rows_fields.
  - unfold globales. now rewrite length_map.
  - unfold cumsum, globales. now rewrite length_map, cumsum_from_length, length_map.
  - apply length_seq.
Qed.

Lemma pareto_items_perm (items : list Item.row) :
  Permutation (pareto_items items)
              (List.filter (fun it => Qlt_bool 0 (Item.Venta_Neta_Total it)) items).
Proof. apply sort_perm. Qed.


Lemma Qlt_bool_iff (x y : Q) : Qlt_bool x y = true <-> x < y.
Proof.
  unfold Qlt_bool. rewrite negb_true_iff, <- not_true_iff_false, Qle_bool_iff.
  split; [apply Qnot_le_lt | apply Qlt_not_le].
Qed.

(** *** Gross, return and net *)


Lemma devolucion_nonneg (x : Q) : 0 <= _Venta_Devolucion x.
Proof.
  unfold _Venta_Devolucion. destruct (Qlt_bool x 0); [apply Qabs_nonneg | lra].
Qed.

Lemma neta_split (x : Q) : x == _Venta_Bruta x - _Venta_Devolucion x.
Proof.
  unfold _Venta_Bruta, _Venta_Devolucion.
  destruct (Qlt_bool 0 x) eqn:E1; destruct (Qlt_bool x 0) eqn:E2.
  - apply Qlt_bool_iff in E1, E2. lra.
  - ring.
  - apply Qlt_bool_iff in E2. rewrite Qabs_neg by lra. ring.
  - apply not_true_iff_false in E1, E2. rewrite Qlt_bool_iff in E1, E2. lra.
Qed.

Lemma Qsum_neta_split {R : Type} (v : R -> Q) (g : list R) :
  Qsum (map v g)
  == Qsum (map (fun r => _Venta_Bruta (v r)) g)
     - Qsum (map (fun r => _Venta_Devolucion (v r)) g).
Proof.
  induction g as [| r g IH]; simpl.
  - ring.
  - rewrite IH. rewrite (neta_split (v r)) at 1. ring.
Qed.

Lemma Qsum_map_nonneg {R : Type} (v : R -> Q) (g : list R) :
  (forall r, 0 <= v r) -> 0 <= Qsum (map v g).
Proof.
  intros H. apply Qsum_nonneg. apply List.Forall_forall. intros x Hx.
  apply in_map_iff in Hx. destruct Hx as [r [<- _]]. apply H.
Qed.








(** The rounding of a double: the code holds 1.015 as the nearest binary64
    number, which lies below it, and rounds that to 1.01; the rational 1.015
    is a tie and goes to the even 1.02. *)
Example round_of_a_double :
  F64.to_Q F64.uno_quince = Some (4571153621781053 # 4503599627370496)
  /\ 4571153621781053 # 4503599627370496 < 1015 # 1000
  /\ F64.to_Q (F64.round 2 F64.uno_quince) = Some (4548635623644201 # 4503599627370496)
  /\ Qabs ((4548635623644201 # 4503599627370496) - (101 # 100)) < 1 # 1000000000000000
  /\ round 2 (1015 # 1000) == 102 # 100.
Proof. repeat split; vm_compute; reflexivity. Qed.





(** *** Classes *)




(** *** Where the rows of the tables come from *)

Lemma build_fact_articulo (cols : list string) (filas : list Clean.row) (f : Fact.row) :
  In f (build_fact cols filas) ->
  exists r, In r filas /\ Fact.Articulo f = Clean.Articulo r.
Proof.
  unfold build_fact, fact_groups. rewrite map_map. intros H.
  apply in_map_iff in H. destruct H as [k [<- Hk]].
  apply group_keys2_In, in_map_iff in Hk. destruct Hk as [r [<- Hr]].
  exists r. split; [exact Hr | reflexivity].
Qed.

Lemma build_items_origin (cols : list string) (filas : list Clean.row)
      (fact : list Fact.row) (it : Item.row) :
  In it (build_items cols filas fact) ->
  (exists f, In f fact /\ Item.Articulo it = Fact.Articulo f)
  /\ (forall s, Item.Descripcion it = Some s ->
                exists r, In r filas /\ s = Clean.Descripcion r).
Proof.
  unfold build_items. intros H. apply in_map_iff in H. destruct H as [a [<- Ha]].
  cbn [Item.Articulo Item.Descripcion]. split.
  - apply group_keys_In, in_map_iff in Ha. destruct Ha as [f [<- Hf]]. now exists f.
  - intros s Hs. destruct (mem "Descripcion" cols); [| discriminate].
    unfold desc_map in Hs.
    destruct (find _ filas) as [r |] eqn:E; [| discriminate].
    apply find_some in E. injection Hs as <-. exists r. tauto.
Qed.

Lemma rank_rows_origin (items : list Item.row) :
  forall (globales acumulados : list Q) (rankings : list nat),
  Forall (fun d => exists it, In it items
                   /\ Dim.Articulo d = Item.Articulo it
                   /\ Dim.Descripcion d = Item.Descripcion it
                   /\ Dim.Venta_Neta_Total d = Item.Venta_Neta_Total it
                   /\ Dim.Venta_Bruta_Total d = Item.Venta_Bruta_Total it
                   /\ Dim.Venta_Devolucion_Total d = Item.Venta_Devolucion_Total it
                   /\ Dim.Tasa_Devolucion d = Item.Tasa_Devolucion it)
         (rank_rows items globales acumulados rankings).
Proof.
  induction items as [| it items IH]; intros [| g gs] [| a acs] [| k ks];
    cbn [rank_rows]; try constructor.
  - exists it. cbn. intuition.
  - eapply List.Forall_impl; [| apply IH].
    intros d [it' [Hin Hrest]]. exists it'. split; [now right | exact Hrest].
Qed.

Lemma dim_origin (items : list Item.row) (d : Dim.row) :
  In d (build_dim (pareto_items items)) ->
  exists it, In it items
             /\ (0 < Item.Venta_Neta_Total it)%Q
             /\ Dim.Articulo d = Item.Articulo it
             /\ Dim.Descripcion d = Item.Descripcion it
             /\ Dim.Venta_Neta_Total d = Item.Venta_Neta_Total it
             /\ Dim.Venta_Bruta_Total d = Item.Venta_Bruta_Total it
             /\ Dim.Venta_Devolucion_Total d = Item.Venta_Devolucion_Total it
             /\ Dim.Tasa_Devolucion d = Item.Tasa_Devolucion it.
Proof.
  unfold build_dim. intros H.
  pose proof (rank_rows_origin (pareto_items items)
                (map (fun it => round 4 (Item.Venta_Neta_Total it
                                         / Qsum (map Item.Venta_Neta_Total (pareto_items items))))
                     (pareto_items items))
                (map (round 4)
                     (cumsum (map (fun it => round 4 (Item.Venta_Neta_Total it
                                         / Qsum (map Item.Venta_Neta_Total (pareto_items items))))
                                  (pareto_items items))))
                (seq 1 (length (pareto_items items)))) as Hall.
  rewrite List.Forall_forall in Hall. destruct (Hall d H) as [it [Hin Hrest]].
  exists it.
  apply (Permutation_in _ (pareto_items_perm items)) in Hin.
  apply filter_In in Hin. destruct Hin as [Hin Hpos]. apply Qlt_bool_iff in Hpos.
  tauto.
Qed.

(** *** Cumulative shares *)








Section Shares.

Variable sorted : list Item.row.
Hypothesis sorted_positive : Forall (fun it => 0 < Item.Venta_Neta_Total it) sorted.
Hypothesis sorted_nonempty : sorted <> [].

Let total_positivo : Q := Qsum (map Item.Venta_Neta_Total sorted).
Let globales : list Q :=
  map (fun it => round 4 (Item.Venta_Neta_Total it / total_positivo)) sorted.







End Shares.

Lemma In_position {X : Type} (l : list X) (x : X) :
  In x l -> exists i, nth_error l i = Some x.
Proof. apply In_nth_error. Qed.

Lemma ranking_position (dim : list Dim.row) (i : nat) (d : Dim.row) :
  map Dim.Ranking dim = seq 1 (length dim) ->
  nth_error dim i = Some d -> Dim.Ranking d = S i.
Proof.
  intros Hr Hi.
  pose proof (map_nth_error Dim.Ranking i dim Hi) as H.
  rewrite Hr in H.
  assert (Hlt : (i < length dim)%nat) by (apply nth_error_Some; congruence).
  apply (nth_error_nth _ _ O) in H. rewrite seq_nth in H by exact Hlt. lia.
Qed.



(** *** Return rate *)


(** On the same sample the pure return Y, whose gross total is 0, gets an
    infinite rate: [fillna] replaces NaN only. *)
Example tasa_of_pure_return :
  map Item.Tasa_Devolucion
      (List.filter (fun it => String.eqb (Item.Articulo it) "Y")
         (build_items (Clean.columns ventas_muestra) (Clean.rows ventas_muestra)
            (build_fact (Clean.columns ventas_muestra) (Clean.rows ventas_muestra))))
  = [PInf].
Proof. vm_compute. reflexivity. Qed.

(** The return rate of an item of [dim_articulos], case by case. *)
Lemma item_rate (cols : list string) (filas : list Clean.row) (fact : list Fact.row)
      (it : Item.row) :
  In it (build_items cols filas fact) ->
  (~ Item.Venta_Bruta_Total it == 0 ->
   Item.Tasa_Devolucion it
   = Fin (round 4 (Item.Venta_Devolucion_Total it / Item.Venta_Bruta_Total it)))
  /\ (Item.Venta_Bruta_Total it == 0 -> Item.Venta_Devolucion_Total it == 0 ->
      exists t, Item.Tasa_Devolucion it = Fin t /\ t == 0).
Proof.
  unfold build_items. intros H. apply in_map_iff in H. destruct H as [a [<- _]].
  cbn [Item.Venta_Bruta_Total Item.Venta_Devolucion_Total Item.Tasa_Devolucion].
  set (bruta := Qsum (map Fact.Venta_Bruta _)).
  set (devolucion := Qsum (map Fact.Venta_Devolucion _)).
  unfold fdiv. split.
  - intros Hb. destruct (Qeq_bool bruta 0) eqn:E.
    + apply Qeq_bool_iff in E. contradiction.
    + reflexivity.
  - intros Hb Hd.
    apply Qeq_bool_iff in Hb, Hd. rewrite Hb, Hd. cbn [fillna0 fround].
    exists (round 4 0). split; [reflexivity | apply round_zero].
Qed.



(** ** The return rate in the exported dimension *)

Lemma Qsum_le_pointwise {X : Type} (f g : X -> Q) (l : list X) :
  (forall x, In x l -> f x <= g x) -> Qsum (map f l) <= Qsum (map g l).
Proof.
  induction l as [| x l IH]; intros H; cbn [map Qsum fold_right]; [lra |].
  change (fold_right Qplus 0 (map f l)) with (Qsum (map f l)).
  change (fold_right Qplus 0 (map g l)) with (Qsum (map g l)).
  assert (f x <= g x) by (apply H; now left).
  assert (Qsum (map f l) <= Qsum (map g l)) by (apply IH; intros; apply H; now right).
  lra.
Qed.

Lemma fact_neta_le_bruta (cols : list string) (filas : list Clean.row) (f : Fact.row) :
  In f (build_fact cols filas) -> Fact.Venta_Neta f <= Fact.Venta_Bruta f.
Proof.
  unfold build_fact, fact_groups. rewrite map_map. intros H.
  apply in_map_iff in H. destruct H as [k [<- _]].
  unfold round_fact. cbn [Fact.Venta_Neta Fact.Venta_Bruta].
  apply round_mono. set (g := List.filter _ filas).
  pose proof (Qsum_neta_split Clean.Venta_Neta g) as Hs.
  pose proof (Qsum_map_nonneg (fun r => _Venta_Devolucion (Clean.Venta_Neta r)) g
                (fun r => devolucion_nonneg _)) as Hd.
  lra.
Qed.

(** A ranked item has a positive gross total, so its return rate is a
    number: the infinite rate of a pure return stays out of the export. *)
Lemma exported_rate_finite (df : Clean.frame) (out : tablas) :
  calculate_pareto df = Ok out ->
  Forall (fun d => 0 < Dim.Venta_Bruta_Total d
                   /\ Dim.Tasa_Devolucion d
                      = Fin (round 4 (Dim.Venta_Devolucion_Total d
                                      / Dim.Venta_Bruta_Total d)))
         (dim_articulos out).
Proof.
  intros H. apply calculate_pareto_Ok in H. destruct H as (_ & Hd & _).
  rewrite Hd. apply List.Forall_forall. intros d Hin.
  apply dim_origin in Hin.
  destruct Hin as [it (Hit & Hpos & _ & _ & _ & Eb & Ed & Et)].
  rewrite Eb, Ed, Et.
  assert (Hb : 0 < Item.Venta_Bruta_Total it).
  { pose proof Hit as Hit'. unfold build_items in Hit'.
    apply in_map_iff in Hit'. destruct Hit' as [a [<- _]]. cbn in *.
    eapply Qlt_le_trans; [exact Hpos |].
    apply Qsum_le_pointwise. intros f Hf. apply filter_In in Hf.
    destruct Hf as [Hf _]. now apply (fact_neta_le_bruta (Clean.columns df) (Clean.rows df)). }
  split; [exact Hb |].
  apply (item_rate _ _ _ it Hit). intros E. rewrite E in Hb. lra.
Qed.

(** ** The order of the ranking *)

Section InsertionSort.

Context {X : Type} (leb : X -> X -> bool).
Hypothesis leb_total : forall a b, leb a b = true \/ leb b a = true.
Hypothesis leb_trans : forall a b c, leb a b = true -> leb b c = true -> leb a c = true.

Lemma insert_sorted_sorted (x : X) (l : list X) :
  StronglySorted (fun a b => leb a b = true) l ->
  StronglySorted (fun a b => leb a b = true) (insert_sorted leb x l).
Proof using leb_total leb_trans.
  induction 1 as [| y l Hl IH Hy]; cbn [insert_sorted].
  - repeat constructor.
  - destruct (leb x y) eqn:E.
    + constructor; [now constructor |]. constructor; [exact E |].
      eapply List.Forall_impl; [| exact Hy]. intros z Hz. now apply (leb_trans x y z).
    + constructor; [exact IH |].
      apply List.Forall_forall. intros z Hz.
      apply (Permutation_in _ (insert_sorted_perm leb x l)) in Hz.
      destruct Hz as [<- | Hz].
      * destruct (leb_total x y) as [H | H]; [congruence | exact H].
      * rewrite List.Forall_forall in Hy. now apply Hy.
Qed.

Lemma sort_sorted (l : list X) : StronglySorted (fun a b => leb a b = true) (sort leb l).
Proof using leb_total leb_trans.
  induction l as [| x l IH]; [constructor |].
  unfold sort in *. cbn [fold_right]. now apply insert_sorted_sorted.
Qed.

End InsertionSort.

Lemma StronglySorted_weaken {X : Type} (R R' : X -> X -> Prop) (l : list X) :
  (forall a b, R a b -> R' a b) -> StronglySorted R l -> StronglySorted R' l.
Proof.
  intros H. induction 1 as [| x l Hl IH Hx]; constructor; [exact IH |].
  eapply List.Forall_impl; [| exact Hx]. intros y. apply H.
Qed.

(** The ranked items come by descending net total. *)
Lemma pareto_items_descending (items : list Item.row) :
  StronglySorted (fun a b => (Item.Venta_Neta_Total b <= Item.Venta_Neta_Total a)%Q)
                 (pareto_items items).
Proof.
  unfold pareto_items.
  eapply StronglySorted_weaken;
    [| apply (sort_sorted
                (fun a b => Qle_bool (Item.Venta_Neta_Total b) (Item.Venta_Neta_Total a)))].
  - intros a b H. now apply Qle_bool_iff.
  - intros a b.
    destruct (Qlt_le_dec (Item.Venta_Neta_Total a) (Item.Venta_Neta_Total b)) as [H | H].
    + right. apply Qle_bool_iff. now apply Qlt_le_weak.
    + left. now apply Qle_bool_iff.
  - intros a b c H1 H2. apply Qle_bool_iff in H1, H2. apply Qle_bool_iff.
    now apply (Qle_trans _ (Item.Venta_Neta_Total b)).
Qed.

Close Scope Q_scope.

(** ** The cleaner *)

Lemma filter_absorb {X : Type} (p p' q : X -> bool) (l : list X) :
  (forall x, p x = true -> p' x = true) ->
  List.filter p (List.filter q (List.filter p' l)) = List.filter p (List.filter q l).
Proof.
  intros H. induction l as [| x l IH]; [reflexivity |].
  cbn [List.filter]. destruct (p' x) eqn:E'.
  - cbn [List.filter]. destruct (q x); cbn [List.filter]; [| exact IH].
    destruct (p x); [now rewrite IH | exact IH].
  - destruct (q x); cbn [List.filter]; [| exact IH].
    destruct (p x) eqn:E; [| exact IH]. apply H in E. congruence.
Qed.

Lemma filter_absorb1 {X : Type} (p p' : X -> bool) (l : list X) :
  (forall x, p x = true -> p' x = true) ->
  List.filter p (List.filter p' l) = List.filter p l.
Proof.
  intros H. induction l as [| x l IH]; [reflexivity |].
  cbn [List.filter]. destruct (p' x) eqn:E'.
  - cbn [List.filter]. destruct (p x); [now rewrite IH | exact IH].
  - destruct (p x) eqn:E; [| exact IH]. apply H in E. congruence.
Qed.

(** The rows kept by the cleaner are not summary rows. *)
Lemma mask_no_total_sound (df : DataFrame) (r : list cell) :
  (if mem "Articulo" (columns df)
   then negb (is_total (upper (strip (cell_str (at_label (columns df) "Articulo" r)))))
   else true)
  && (if mem "Descripcion" (columns df)
      then negb (is_total (upper (strip (cell_str (at_label (columns df) "Descripcion" r)))))
      else true)
  = negb (summary_row df r).
Proof.
  unfold summary_row. rewrite !is_total_clean.
  destruct (mem "Articulo" (columns df)), (mem "Descripcion" (columns df));
    cbn [andb orb negb];
    repeat match goal with |- context [is_total ?x] => destruct (is_total x) end;
    reflexivity.
Qed.

Ltac case_series :=
  repeat match goal with
  | |- context [bind (match ?x with Some _ => _ | None => _ end) _] => destruct x
  | |- context [bind (if ?b then _ else _) _] => destruct b eqn:?
  | |- bind (Ok _) _ = bind (Ok _) _ => cbn [bind]
  | |- bind (Err _) _ = bind (Err _) _ => reflexivity
  end.

(** The cleaned table is the cleaned table of the input without its summary
    rows. *)
Lemma clean_data_drop (df : DataFrame) :
  clean_data (drop_summary_rows df) = clean_data df.
Proof.
  unfold clean_data, numeric_series, upper_series.
  cbn [columns rows drop_summary_rows].
  case_series; f_equal; f_equal; f_equal;
    (apply filter_absorb || apply filter_absorb1);
    intros r Hr; pose proof (mask_no_total_sound df r) as Hm;
    repeat match goal with
    | E : mem _ (columns df) = _ |- _ => rewrite E in Hm
    end;
    cbv beta in *; congruence.
Qed.

Ltac case_series_in H :=
  repeat (match type of H with
          | context [bind (match ?x with Some _ => _ | None => _ end) _] => destruct x
          | context [bind (if ?b then _ else _) _] => destruct b eqn:?
          end; cbn [bind] in H; try discriminate H).

(** No row of the cleaned table carries a summary label. *)
Lemma clean_data_no_total (df : DataFrame) (clean : Clean.frame) :
  clean_data df = Ok clean -> Forall no_total_clean (Clean.rows clean).
Proof.
  unfold clean_data, numeric_series, upper_series. intros H.
  case_series_in H; injection H as <-; cbn [Clean.rows];
    apply List.Forall_forall; intros x Hx;
    apply in_map_iff in Hx; destruct Hx as [r [<- Hr]];
    apply filter_In in Hr; destruct Hr as [_ Hr];
    cbn [andb] in Hr;
    repeat match goal with
    | E : _ && _ = true |- _ => apply andb_prop in E; destruct E
    end;
    unfold no_total_clean; cbn [Clean.Articulo Clean.Descripcion];
    repeat match goal with
    | E : negb _ = true |- _ => apply negb_true_iff in E
    end;
    split; first [assumption | vm_compute; reflexivity].
Qed.

(** C4. A row whose Articulo or Descripcion value contains one of the
    summary patterns, in any case of its letters, is dropped by the cleaner:
    the cleaned table is that of the input without such rows, no cleaned row
    carries a pattern, and no row of the fact or of the dimension output
    does. *)
Theorem C4_summary_rows_dropped (df : DataFrame) :
  clean_data (drop_summary_rows df) = clean_data df
  /\ (forall clean, clean_data df = Ok clean ->
        Forall no_total_clean (Clean.rows clean)
        /\ (forall out, calculate_pareto clean = Ok out ->
              Forall no_total_fact (fact_ventas out)
              /\ Forall no_total_dim (dim_articulos out))).
Proof.
  split; [apply clean_data_drop |].
  intros clean Hc. pose proof (clean_data_no_total df clean Hc) as Hrows.
  split; [exact Hrows |].
  rewrite List.Forall_forall in Hrows.
  intros out Ho. apply calculate_pareto_Ok in Ho. destruct Ho as (_ & Hd & Hf).
  rewrite Hd, Hf. split.
  - apply List.Forall_forall. intros f Hin. apply filter_In in Hin. destruct Hin as [Hin _].
    apply build_fact_articulo in Hin. destruct Hin as [r [Hr E]].
    unfold no_total_fact. rewrite E. now apply Hrows.
  - apply List.Forall_forall. intros d Hin. apply dim_origin in Hin.
    destruct Hin as [it (Hit & _ & Ea & Ed & _)].
    apply build_items_origin in Hit. destruct Hit as [[f [Hf' Ef]] Hdesc].
    apply build_fact_articulo in Hf'. destruct Hf' as [r [Hr Er]].
    unfold no_total_dim. rewrite Ea, Ed, Ef, Er. split; [now apply Hrows |].
    destruct (Item.Descripcion it) as [s |] eqn:Es; [| exact I].
    destruct (Hdesc s eq_refl) as [r' [Hr' ->]]. now apply Hrows.
Qed.

Lemma C4_witness :
  clean_data tabla_con_total = Ok limpio_con_total
  /\ calculate_pareto limpio_con_total = Ok tablas_con_total
  /\ Forall no_total_clean (Clean.rows limpio_con_total)
  /\ Forall no_total_fact (fact_ventas tablas_con_total)
  /\ Forall no_total_dim (dim_articulos tablas_con_total).
Proof.
  assert (H1 : clean_data tabla_con_total = Ok limpio_con_total)
    by (vm_compute; reflexivity).
  assert (H2 : calculate_pareto limpio_con_total = Ok tablas_con_total)
    by (vm_compute; reflexivity).
  destruct (proj2 (C4_summary_rows_dropped tabla_con_total) limpio_con_total H1)
    as [Hrows Hout].
  destruct (Hout tablas_con_total H2) as [Hfact Hdim].
  repeat split; assumption.
Defined.

(** Scenario 2: the line TOTAL GENERAL of 50000 reaches neither table. *)
Example total_general_excluded :
  summary_row tabla_con_total
              [text "TOTAL GENERAL"; nan; number "50000" 50000; text "CENTRO"] = true
  /\ map Clean.Articulo (Clean.rows limpio_con_total) = ["A1"; "A2"]
  /\ map Fact.Articulo (fact_ventas tablas_con_total) = ["A1"; "A2"]
  /\ map Dim.Articulo (dim_articulos tablas_con_total) = ["A2"; "A1"]
  /\ Qeq (Qsum (map Dim.Venta_Neta_Total (dim_articulos tablas_con_total))) 400.
Proof. repeat split. Qed.

(** ** Scenarios *)

(** Scenario 1: an accented header is mapped onto the canonical labels. *)
Example accented_header_normalized :
  super_normalize_columns tabla_acentuada
  = Ok {| columns := ["Articulo"; "Descripcion"; "Cantidad"; "Precio"; "Total_precio"];
          rows := rows tabla_acentuada |}.
Proof. vm_compute. reflexivity. Qed.

(** Scenario 3: item X sells 800 in branch A and 200 in branch B; the fact
    table has the two rows and the dimension one row of 1000. *)
Example two_branches_one_item :
  map (fun f => (Fact.Sucursal f, Qred (Fact.Venta_Neta f)))
      (List.filter (fun f => String.eqb (Fact.Articulo f) "X") (fact_ventas tablas_muestra))
  = [("A", 800%Q); ("B", 200%Q)]
  /\ map (fun d => Qred (Dim.Venta_Neta_Total d))
         (List.filter (fun d => String.eqb (Dim.Articulo d) "X")
                      (dim_articulos tablas_muestra))
     = [1000%Q].
Proof. split; vm_compute; reflexivity. Qed.

(** Scenario 4: the net return Y is in neither table, and the totals do not
    count it. *)
Example net_return_excluded :
  map Dim.Articulo (dim_articulos tablas_muestra) = ["X"; "Z"]
  /\ List.filter (fun f => String.eqb (Fact.Articulo f) "Y") (fact_ventas tablas_muestra) = []
  /\ Qeq (Qsum (map Dim.Venta_Neta_Total (dim_articulos tablas_muestra))) 1200.
Proof. repeat split. Qed.

(** Scenario 5: without a total column every net sale is 0 and the ranking
    has no item. *)
Example no_total_column :
  (do clean <- clean_data tabla_sin_total; calculate_pareto clean) = Err ValueError.
Proof. vm_compute. reflexivity. Qed.

(** Three equal items: each share rounds down to 0.3333 and the last
    cumulative share is 0.9999. *)
Example equal_thirds :
  match calculate_pareto ventas_iguales with
  | Ok t => map (fun d => Qred (Dim.Porcentaje_Acumulado d)) (dim_articulos t)
  | Err _ => []
  end
  = [(3333 # 10000)%Q; (3333 # 5000)%Q; (9999 # 10000)%Q].
Proof. vm_compute. reflexivity. Qed.

(** * Further properties *)

(** ** Accents and case *)

Lemma remove_accents_char_idem (c : ascii) :
  remove_accents_char (remove_accents_char c) = remove_accents_char c.
Proof. destruct c as [[] [] [] [] [] [] [] []]; vm_compute; reflexivity. Qed.

Lemma remove_accents_char_ascii (c : ascii) :
  (N_of_ascii c <? 128)%N = true -> remove_accents_char c = c.
Proof.
  destruct c as [[] [] [] [] [] [] [] []]; vm_compute; intros H;
    first [reflexivity | discriminate H].
Qed.

Lemma remove_accents_idem (text : string) :
  remove_accents (remove_accents text) = remove_accents text.
Proof.
  induction text as [| c s IH]; [reflexivity |].
  unfold remove_accents in *. cbn [map_string].
  now rewrite remove_accents_char_idem, IH.
Qed.

Lemma remove_accents_ascii (text : string) :
  is_ascii text = true -> remove_accents text = text.
Proof.
  induction text as [| c s IH]; intros H; [reflexivity |].
  unfold remove_accents, is_ascii in *. cbn [map_string all_chars] in *.
  apply andb_prop in H. destruct H as [Hc Hs].
  now rewrite remove_accents_char_ascii, IH.
Qed.

(** X1. Stripping accents twice is stripping them once, and a text of ASCII
    characters is left as it is. *)
Theorem remove_accents_idempotent :
  (forall text, remove_accents (remove_accents text) = remove_accents text)
  /\ (forall text, is_ascii text = true -> remove_accents text = text).
Proof. split; [apply remove_accents_idem | apply remove_accents_ascii]. Qed.

(** ** The normaliser as a relabelling *)

Definition values_in_targets (m : gmap string string) : Prop :=
  forall k v, m !! k = Some v -> In v targets.

Lemma fuzzy_step_targets (st : gmap string string * bool) (col : string) :
  values_in_targets (fst st) -> values_in_targets (fst (fuzzy_step st col)).
Proof.
  intros H. unfold fuzzy_step.
  destruct (negb (snd st) && is_articulo _); cbn [fst].
  - intros k v. rewrite lookup_insert. case_decide; [| apply H].
    intros [= <-]. simpl. auto.
  - destruct (other_target _) as [t |] eqn:Et; cbn [fst]; [| exact H].
    intros k v. rewrite lookup_insert. case_decide; [| apply H].
    intros [= <-]. apply other_target_values in Et. simpl. intuition.
Qed.

Lemma fuzzy_fold_targets (cols : list string) :
  forall st, values_in_targets (fst st) ->
             values_in_targets (fst (fold_left fuzzy_step cols st)).
Proof.
  induction cols as [| c cols IH]; intros st H; [exact H |].
  cbn [fold_left]. apply IH. now apply fuzzy_step_targets.
Qed.

Lemma fuzzy_detection_targets (cols : list string) :
  values_in_targets (fuzzy_detection cols).
Proof.
  unfold fuzzy_detection. apply fuzzy_fold_targets.
  unfold values_in_targets. cbn [fst]. intros k v. rewrite lookup_empty. discriminate.
Qed.

Lemma Forall2_map_r {X Y : Type} (R : X -> Y -> Prop) (g : X -> Y) (l : list X) :
  (forall x, R x (g x)) -> Forall2 R l (map g l).
Proof. intros H. induction l; constructor; auto. Qed.

(** X3. A table that the normaliser returns has the cells of its input and a
    column called Articulo, and each of its labels is, position by position,
    either the trimmed and accent-stripped input label or one of the five
    canonical targets. *)
Theorem normalisation_relabels (df out : DataFrame) :
  super_normalize_columns df = Ok out ->
  rows out = rows df
  /\ In "Articulo" (columns out)
  /\ Forall2 (fun c o => o = clean_label c \/ In o targets) (columns df) (columns out).
Proof.
  intros H. destruct (normalized_has_articulo df out H) as (Hin & Hrows & _).
  split; [exact Hrows | split; [exact Hin |]].
  unfold super_normalize_columns in H.
  destruct (mem "Articulo" _); [| discriminate]. injection H as <-.
  cbn [columns]. rewrite map_map. apply Forall2_map_r. intros c.
  unfold rename.
  destruct (fuzzy_detection (map clean_label (columns df)) !! clean_label c) as [v |] eqn:E.
  - right. now apply (fuzzy_detection_targets _ _ _ E).
  - now left.
Qed.

Lemma normalisation_relabels_witness :
  super_normalize_columns tabla_acentuada = Ok tabla_acentuada_normalizada
  /\ rows tabla_acentuada_normalizada = rows tabla_acentuada
  /\ In "Articulo" (columns tabla_acentuada_normalizada)
  /\ Forall2 (fun c o => o = clean_label c \/ In o targets)
             (columns tabla_acentuada) (columns tabla_acentuada_normalizada).
Proof.
  assert (H : super_normalize_columns tabla_acentuada = Ok tabla_acentuada_normalizada)
    by (vm_compute; reflexivity).
  split; [exact H |].
  exact (normalisation_relabels tabla_acentuada tabla_acentuada_normalizada H).
Defined.

(** ** The identity column *)

Lemma first_match_none (cols : list string) :
  first_match cols = None ->
  Forall (fun c => is_articulo (remove_accents (lower c)) = false) cols.
Proof.
  induction cols as [| c cols IH]; intros H; [constructor |].
  cbn [first_match] in H.
  destruct (is_articulo (remove_accents (lower c))) eqn:E; [discriminate |].
  constructor; [exact E |]. apply IH. now destruct (first_match cols).
Qed.

(** X4. When no trimmed and accent-stripped label contains art, prod, codigo
    or sku in lower case, the normaliser raises the KeyError, whatever else
    the table holds. *)
Theorem no_identity_column_KeyError (df : DataFrame) :
  first_match (map clean_label (columns df)) = None ->
  super_normalize_columns df = Err KeyError.
Proof.
  intros H. apply no_match_KeyError. apply first_match_none in H.
  rewrite List.Forall_forall in *. intros c Hc. apply H. now apply in_map.
Qed.

Lemma no_identity_column_KeyError_witness :
  first_match (map clean_label (columns tabla_sin_articulo)) = None
  /\ super_normalize_columns tabla_sin_articulo = Err KeyError.
Proof.
  assert (H : first_match (map clean_label (columns tabla_sin_articulo)) = None)
    by (vm_compute; reflexivity).
  split; [exact H | exact (no_identity_column_KeyError tabla_sin_articulo H)].
Defined.

Lemma assign_first_match (cols : list string) :
  forall i, first_match cols = Some i ->
  nth_error (assign false cols) i = Some "Articulo"
  /\ forall j, (j < i)%nat -> nth_error (assign false cols) j <> Some "Articulo".
Proof.
  induction cols as [| c cols IH]; intros i H; [discriminate |].
  cbn [first_match] in H. cbn [assign negb andb].
  destruct (is_articulo (remove_accents (lower c))) eqn:E.
  - injection H as <-. split; [reflexivity | intros j Hj; lia].
  - destruct (first_match cols) as [i' |]; [| discriminate]. injection H as <-.
    destruct (IH i' eq_refl) as [Hi Hbefore].
    assert (Hc : c <> "Articulo") by (intros ->; vm_compute in E; discriminate).
    destruct (other_target (remove_accents (lower c))) as [t |] eqn:Et.
    + split; [exact Hi |]. intros [| j] Hj; cbn [nth_error].
      * intros [= ->]. apply other_target_values in Et.
        destruct Et as [Et | [Et | [Et | Et]]]; discriminate.
      * apply Hbefore. lia.
    + split; [exact Hi |]. intros [| j] Hj; cbn [nth_error].
      * congruence.
      * apply Hbefore. lia.
Qed.

(** X5. First match wins: when the cleaned labels are pairwise distinct and
    the first of them that matches is at position [i], the normaliser
    succeeds, column [i] of its result is called Articulo, and no column
    before it is. *)
Theorem first_match_wins (df : DataFrame) (i : nat) :
  List.NoDup (map clean_label (columns df)) ->
  first_match (map clean_label (columns df)) = Some i ->
  exists out, super_normalize_columns df = Ok out
              /\ nth_error (columns out) i = Some "Articulo"
              /\ forall j, (j < i)%nat -> nth_error (columns out) j <> Some "Articulo".
Proof.
  intros Hnd Hi. destruct (assign_first_match _ i Hi) as [Hat Hbefore].
  unfold super_normalize_columns, fuzzy_detection.
  rewrite rename_assign; [| exact Hnd | intros c _; apply lookup_empty].
  assert (Hin : mem "Articulo" (assign false (map clean_label (columns df))) = true).
  { apply mem_In. eapply nth_error_In. exact Hat. }
  rewrite Hin. eexists. split; [reflexivity |]. cbn [columns]. split; assumption.
Qed.

Lemma first_match_wins_witness :
  List.NoDup (map clean_label (columns tabla_sin_repetidas))
  /\ first_match (map clean_label (columns tabla_sin_repetidas)) = Some 0%nat
  /\ exists out, super_normalize_columns tabla_sin_repetidas = Ok out
                 /\ nth_error (columns out) 0 = Some "Articulo"
                 /\ forall j, (j < 0)%nat -> nth_error (columns out) j <> Some "Articulo".
Proof.
  assert (H1 : List.NoDup (map clean_label (columns tabla_sin_repetidas))).
  { vm_compute. repeat constructor; simpl; intuition discriminate. }
  assert (H2 : first_match (map clean_label (columns tabla_sin_repetidas)) = Some 0%nat)
    by (vm_compute; reflexivity).
  split; [exact H1 | split; [exact H2 |]].
  exact (first_match_wins tabla_sin_repetidas 0 H1 H2).
Defined.

(** X6. With pairwise distinct cleaned labels, none of which is Articulo
    already, a table that the normaliser returns has exactly one column
    called Articulo. *)
Theorem one_identity_column (df out : DataFrame) :
  List.NoDup (map clean_label (columns df)) ->
  ~ In "Articulo" (map clean_label (columns df)) ->
  super_normalize_columns df = Ok out ->
  count_occ string_dec (columns out) "Articulo" = 1%nat.
Proof. apply articulo_unique. Qed.

Lemma one_identity_column_witness :
  List.NoDup (map clean_label (columns tabla_acentuada))
  /\ ~ In "Articulo" (map clean_label (columns tabla_acentuada))
  /\ super_normalize_columns tabla_acentuada = Ok tabla_acentuada_normalizada
  /\ count_occ string_dec (columns tabla_acentuada_normalizada) "Articulo" = 1%nat.
Proof.
  assert (H1 : List.NoDup (map clean_label (columns tabla_acentuada))).
  { vm_compute. repeat constructor; simpl; intuition discriminate. }
  assert (H2 : ~ In "Articulo" (map clean_label (columns tabla_acentuada))).
  { vm_compute. intuition discriminate. }
  assert (H3 : super_normalize_columns tabla_acentuada = Ok tabla_acentuada_normalizada)
    by (vm_compute; reflexivity).
  split; [exact H1 | split; [exact H2 | split; [exact H3 |]]].
  exact (one_identity_column tabla_acentuada tabla_acentuada_normalizada H1 H2 H3).
Defined.

(** ** The sniffer *)

Lemma existsb_filter_iff {X : Type} (p : X -> bool) (l : list X) :
  existsb p l = true <-> (1 <= length (List.filter p l))%nat.
Proof.
  split; [apply existsb_filter_length |].
  induction l as [| x l IH]; cbn [List.filter existsb]; [cbn; lia |].
  destruct (p x); cbn [length orb]; [reflexivity | exact IH].
Qed.

Lemma list_sum_cons (x : nat) (l : list nat) : list_sum (x :: l) = (x + list_sum l)%nat.
Proof. reflexivity. Qed.

Lemma hits_total (cols : list string) :
  length (flat_map (fun col => List.filter (fun kw => contains kw col) keywords)
                   (map (fun c => remove_accents (lower c)) cols))
  = list_sum (map keyword_hits cols).
Proof.
  induction cols as [| c cols IH]; [reflexivity |].
  cbn [map flat_map]. rewrite list_sum_cons, length_app, IH. reflexivity.
Qed.

Lemma matching_length (cols : list string) :
  length (List.filter
            (fun c => existsb (fun kw => contains kw (remove_accents (lower c))) keywords)
            cols)
  = length (List.filter (fun c => (1 <=? keyword_hits c)%nat) cols).
Proof.
  f_equal. apply List.filter_ext. intros c. apply eq_true_iff_eq.
  rewrite existsb_filter_iff, Nat.leb_le. reflexivity.
Qed.

Lemma two_hits (cols : list string) :
  (2 <= list_sum (map keyword_hits cols))%nat
  <-> (2 <= length (List.filter (fun c => (1 <=? keyword_hits c)%nat) cols))%nat
      \/ exists c, In c cols /\ (2 <= keyword_hits c)%nat.
Proof.
  induction cols as [| c cols IH].
  - cbn. split; [lia | intros [H | [c [[] _]]]; lia].
  - cbn [map List.filter]. rewrite list_sum_cons.
    assert (Hone : (1 <= list_sum (map keyword_hits cols))%nat ->
                   (1 <= length (List.filter (fun c => (1 <=? keyword_hits c)%nat) cols))%nat).
    { clear. induction cols as [| d cols IHc]; cbn [map List.filter];
        rewrite ?list_sum_cons; [cbn; lia |].
      destruct (1 <=? keyword_hits d)%nat eqn:E; cbn [length]; [lia |].
      apply Nat.leb_gt in E. intros H. apply IHc. lia. }
    assert (Hsum : (length (List.filter (fun c => (1 <=? keyword_hits c)%nat) cols)
                    <= list_sum (map keyword_hits cols))%nat).
    { clear. induction cols as [| d cols IHc]; cbn [map List.filter];
        rewrite ?list_sum_cons; [cbn; lia |].
      destruct (1 <=? keyword_hits d)%nat eqn:E; cbn [length]; [| lia].
      apply Nat.leb_le in E. lia. }
    destruct (1 <=? keyword_hits c)%nat eqn:E; cbn [length].
    + apply Nat.leb_le in E. split.
      * intros H. destruct (Nat.le_gt_cases 2 (keyword_hits c)) as [H2 | H2].
        -- right. exists c. split; [now left | exact H2].
        -- left. assert (1 <= list_sum (map keyword_hits cols))%nat by lia.
           apply Hone in H0. lia.
      * intros [H | [d [[<- | Hd] H2]]]; try lia.
        assert (2 <= list_sum (map keyword_hits cols))%nat
          by (apply IH; right; now exists d). lia.
    + apply Nat.leb_gt in E. split.
      * intros H. assert (H' : (2 <= list_sum (map keyword_hits cols))%nat) by lia.
        apply IH in H'. destruct H' as [H' | [d [Hd H2]]]; [now left |].
        right. exists d. split; [now right | exact H2].
      * intros [H | [d [[<- | Hd] H2]]]; try lia.
        assert (2 <= list_sum (map keyword_hits cols))%nat
          by (apply IH; right; now exists d). lia.
Qed.

(** X7. The validity predicate accepts a parse exactly when the table is not
    empty, has at least 3 columns, and either at least 2 columns contain a
    keyword or a single column contains 2 keywords. *)
Theorem has_valid_columns_iff (df : DataFrame) :
  has_valid_columns df = true
  <-> is_empty df = false
      /\ (3 <= length (columns df))%nat
      /\ ((2 <= length (matching_columns df))%nat
          \/ exists c, In c (columns df) /\ (2 <= keyword_hits c)%nat).
Proof.
  unfold has_valid_columns, matching_columns.
  rewrite hits_total, matching_length, <- two_hits.
  destruct (is_empty df); cbn [orb].
  - split; [discriminate | intros [H _]; discriminate].
  - destruct (length (columns df) <? 3)%nat eqn:E.
    + apply Nat.ltb_lt in E. split; [discriminate | intros (_ & H & _); lia].
    + apply Nat.ltb_ge in E. rewrite Nat.leb_le. tauto.
Qed.

(** *** The search for a header *)

Lemma first_valid_skip (f : csv_file) (pre : list (encoding * option nat)) :
  Forall (fun a => attempt_valid f a = false) pre ->
  forall rest, first_valid f (pre ++ rest) = first_valid f rest.
Proof.
  induction 1 as [| [e h] pre Ha Hpre IH]; intros rest; [reflexivity |].
  cbn [app first_valid]. unfold attempt_valid in Ha. cbn [fst snd] in Ha.
  destruct (read_csv f h e) as [df |]; [rewrite Ha |]; apply IH.
Qed.

(** X8. The sniffer returns the first attempt, encodings outermost and
    header rows innermost, that parses and has valid columns: attempts that
    raise or that are not valid are passed over. *)
Theorem smart_read_csv_first_valid (f : csv_file) (pre post : list (encoding * option nat))
        (e : encoding) (h : option nat) (df : DataFrame) :
  attempts = (pre ++ (e, h) :: post)%list ->
  Forall (fun a => attempt_valid f a = false) pre ->
  read_csv f h e = Ok df ->
  has_valid_columns df = true ->
  smart_read_csv f = Ok df.
Proof.
  intros Ha Hpre Hread Hvalid. unfold smart_read_csv. fold attempts. rewrite Ha.
  rewrite first_valid_skip by exact Hpre. cbn [first_valid].
  now rewrite Hread, Hvalid.
Qed.

Lemma smart_read_csv_first_valid_witness :
  smart_read_csv archivo_sur
  = read_csv archivo_sur (Some 1%nat) utf_8.
Proof.
  assert (Hr : exists df, read_csv archivo_sur (Some 1%nat) utf_8 = Ok df
                          /\ has_valid_columns df = true).
  { eexists. split; [reflexivity | vm_compute; reflexivity]. }
  destruct Hr as [df [Hread Hvalid]]. rewrite Hread.
  apply (smart_read_csv_first_valid archivo_sur [(utf_8, Some 0%nat)]
           [(utf_8, Some 2%nat); (utf_8, Some 3%nat); (utf_8, None);
            (latin_1, Some 0%nat); (latin_1, Some 1%nat); (latin_1, Some 2%nat);
            (latin_1, Some 3%nat); (latin_1, None);
            (cp1252, Some 0%nat); (cp1252, Some 1%nat); (cp1252, Some 2%nat);
            (cp1252, Some 3%nat); (cp1252, None)]
           utf_8 (Some 1%nat) df).
  - reflexivity.
  - repeat constructor.
  - exact Hread.
  - exact Hvalid.
Defined.

Lemma first_valid_outcome (f : csv_file) (l : list (encoding * option nat)) :
  match first_valid f l with
  | Some df => has_valid_columns df = true
               /\ exists a, In a l /\ read_csv f (snd a) (fst a) = Ok df
  | None => Forall (fun a => attempt_valid f a = false) l
  end.
Proof.
  induction l as [| [e h] l IH]; cbn [first_valid]; [constructor |].
  destruct (read_csv f h e) as [df |] eqn:Er.
  - destruct (has_valid_columns df) eqn:Ev.
    + split; [exact Ev |]. exists (e, h). split; [now left | exact Er].
    + destruct (first_valid f l) as [df' |].
      * destruct IH as [Hv [a [Ha Hr]]]. split; [exact Hv |]. exists a. split; [now right | exact Hr].
      * constructor; [| exact IH]. unfold attempt_valid. cbn [fst snd]. now rewrite Er.
  - destruct (first_valid f l) as [df' |].
    + destruct IH as [Hv [a [Ha Hr]]]. split; [exact Hv |]. exists a. split; [now right | exact Hr].
    + constructor; [| exact IH]. unfold attempt_valid. cbn [fst snd]. now rewrite Er.
Qed.

(** X9. The sniffer either returns a table with valid columns that one of
    the fifteen attempts parsed, or, when no attempt parses to valid columns,
    does what the read with the header on the third line and UTF-8 does: it
    returns that table, or raises its error.  An exception of an attempt
    never escapes. *)
Theorem smart_read_csv_outcome (f : csv_file) :
  (exists df a, In a attempts
                /\ read_csv f (snd a) (fst a) = Ok df
                /\ has_valid_columns df = true
                /\ smart_read_csv f = Ok df)
  \/ (Forall (fun a => attempt_valid f a = false) attempts
      /\ smart_read_csv f = read_csv f (Some 2%nat) utf_8).
Proof.
  unfold smart_read_csv. fold attempts.
  pose proof (first_valid_outcome f attempts) as H.
  destruct (first_valid f attempts) as [df |].
  - left. destruct H as [Hv [a [Ha Hr]]]. exists df, a. tauto.
  - right. split; [exact H | reflexivity].
Qed.

(** ** The consolidated table *)

Lemma extract_all_files_eq (files : list csv_file) :
  files <> [] ->
  extract_all_files files
  = (match frames_read (sort by_path files) with
     | [] => Err ValueError
     | d :: ds => Ok (concat (d :: ds))
     end,
     map filepath (List.filter (fun f => negb (readable f)) (sort by_path files))).
Proof.
  intros Hne. unfold extract_all_files. destruct files as [| f files]; [congruence |].
  rewrite extract_loop_spec. cbn [fst snd].
  destruct (frames_read (sort by_path (f :: files))); reflexivity.
Qed.

Lemma frames_read_nil (files : list csv_file) :
  frames_read files = [] <-> Forall (fun f => readable f = false) files.
Proof.
  unfold frames_read. induction files as [| f files IH]; cbn [flat_map].
  - split; [constructor | reflexivity].
  - destruct (smart_read_csv f) as [df | e] eqn:E; cbn [app].
    + split; [discriminate |]. intros H. inversion H as [| ? ? Hr _].
      unfold readable in Hr. rewrite E in Hr. discriminate.
    + rewrite IH. split; intros H.
      * constructor; [unfold readable; now rewrite E | exact H].
      * now inversion H.
Qed.

Lemma Forall_sort {X : Type} (leb : X -> X -> bool) (P : X -> Prop) (l : list X) :
  Forall P (sort leb l) <-> Forall P l.
Proof.
  rewrite !List.Forall_forall. split; intros H x Hx; apply H.
  - eapply Permutation_in; [symmetry; apply sort_perm | exact Hx].
  - eapply Permutation_in; [apply sort_perm | exact Hx].
Qed.

(** X10. The extraction raises FileNotFoundError exactly when there is no
    file, ValueError exactly when there are files and none can be read, and
    returns a table exactly when some file can be read. *)
Theorem extraction_outcome (files : list csv_file) :
  (fst (extract_all_files files) = Err FileNotFoundError <-> files = [])
  /\ (fst (extract_all_files files) = Err ValueError
      <-> files <> [] /\ Forall (fun f => readable f = false) files)
  /\ ((exists df, fst (extract_all_files files) = Ok df)
      <-> Exists (fun f => readable f = true) files).
Proof.
  destruct files as [| f files].
  - cbn [extract_all_files fst]. split; [split; reflexivity | split].
    + split; [discriminate | intros [H _]; now contradiction H].
    + split; [intros [df H]; discriminate | intros H; inversion H].
  - rewrite extract_all_files_eq by discriminate. cbn [fst].
    pose proof (frames_read_nil (sort by_path (f :: files))) as Hnil.
    rewrite Forall_sort in Hnil.
    destruct (frames_read (sort by_path (f :: files))) as [| d ds].
    + assert (Hall : Forall (fun f => readable f = false) (f :: files)) by now apply Hnil.
      split; [split; discriminate | split].
      * split; [intros _; split; [discriminate | exact Hall] | reflexivity].
      * split; [intros [df H]; discriminate |].
        intros H. apply List.Exists_exists in H. destruct H as [g [Hg Hr]].
        rewrite List.Forall_forall in Hall. rewrite (Hall g Hg) in Hr. discriminate.
    + assert (Hsome : ~ Forall (fun f => readable f = false) (f :: files)).
      { intros H. apply Hnil in H. discriminate. }
      split; [split; discriminate | split].
      * split; [discriminate | intros [_ H]; contradiction].
      * split; [| intros _; now exists (concat (d :: ds))].
        intros _. apply neg_Forall_Exists_neg in Hsome.
        -- eapply List.Exists_impl; [| exact Hsome]. intros g Hg. cbv beta in Hg.
           now destruct (readable g).
        -- intros g. destruct (readable g); [right; discriminate | now left].
Qed.

(** *** Labels, shape and branch tags *)

Lemma unique_In (l : list string) (c : string) : In c (unique l) <-> In c l.
Proof.
  induction l as [| x l IH]; [reflexivity |].
  cbn [unique In]. rewrite filter_In, IH, negb_true_iff.
  destruct (String.eqb_spec x c) as [-> | Hne].
  - tauto.
  - intuition congruence.
Qed.

Lemma unique_NoDup (l : list string) : List.NoDup (unique l).
Proof.
  induction l as [| x l IH]; [constructor |].
  cbn [unique]. constructor.
  - rewrite filter_In, negb_true_iff, String.eqb_neq. tauto.
  - now apply List.NoDup_filter.
Qed.

Lemma position_In (c : string) (l : list string) :
  In c l -> exists j, position c l = Some j /\ nth_error l j = Some c.
Proof.
  induction l as [| x l IH]; intros H; [contradiction |].
  cbn [position]. destruct (String.eqb_spec c x) as [-> | Hne].
  - exists O. split; reflexivity.
  - destruct H as [-> | H]; [congruence |].
    destruct (IH H) as [j [Hp Hn]]. exists (S j). rewrite Hp. split; [reflexivity | exact Hn].
Qed.

Lemma position_app_new (c : string) (l : list string) :
  ~ In c l -> position c (l ++ [c]) = Some (length l).
Proof.
  induction l as [| x l IH]; intros H; cbn [app position length].
  - now rewrite String.eqb_refl.
  - destruct (String.eqb_spec c x) as [-> | Hne]; [exfalso; apply H; now left |].
    rewrite IH by (intros Hc; apply H; now right). reflexivity.
Qed.

Lemma nth_map_at {X Y : Type} (g : X -> Y) (l : list X) (j : nat) (x : X) (d : Y) :
  nth_error l j = Some x -> nth j (map g l) d = g x.
Proof.
  intros H. apply nth_error_nth. rewrite nth_error_map, H. reflexivity.
Qed.

Lemma nth_zip_with_label (name : string) (v : cell) (cols : list string) :
  forall (r : list cell) (j : nat),
  nth_error cols j = Some name -> length r = length cols ->
  nth j (zip_with (fun c x => if String.eqb c name then v else x) cols r) nan = v.
Proof.
  induction cols as [| c cols IH]; intros [| x r] [| j] Hj Hlen;
    cbn in Hj, Hlen; try discriminate.
  - injection Hj as ->. cbn. now rewrite String.eqb_refl.
  - cbn [zip_with nth]. apply IH; [exact Hj | lia].
Qed.

Lemma set_column_columns (name : string) (v : cell) (df : DataFrame) :
  In name (columns (set_column name v df))
  /\ forall c, In c (columns df) -> In c (columns (set_column name v df)).
Proof.
  unfold set_column. destruct (mem name (columns df)) eqn:E; cbn [columns].
  - apply mem_In in E. tauto.
  - split; [apply in_or_app; right; now left | intros c Hc; apply in_or_app; now left].
Qed.

Lemma set_column_rows (name : string) (v : cell) (df : DataFrame) :
  length (rows (set_column name v df)) = length (rows df)
  /\ forall r, In r (rows (set_column name v df)) ->
               at_label (columns (set_column name v df)) name r = v.
Proof.
  unfold set_column. destruct (mem name (columns df)) eqn:E; cbn [columns rows].
  - split; [apply length_map |]. intros r Hr. apply in_map_iff in Hr.
    destruct Hr as [r0 [<- _]]. apply mem_In in E.
    destruct (position_In name (columns df) E) as [j [Hp Hn]].
    unfold at_label. rewrite Hp. apply nth_zip_with_label; [exact Hn |].
    apply length_resize.
  - split; [apply length_map |]. intros r Hr. apply in_map_iff in Hr.
    destruct Hr as [r0 [<- _]].
    assert (Hnin : ~ In name (columns df)).
    { intros H. apply mem_In in H. congruence. }
    unfold at_label. rewrite position_app_new by exact Hnin.
    rewrite app_nth2 by (rewrite length_resize; lia).
    rewrite length_resize, Nat.sub_diag. reflexivity.
Qed.

Lemma frames_read_origin (files : list csv_file) (d : DataFrame) :
  In d (frames_read files) ->
  exists f df, In f files /\ smart_read_csv f = Ok df
               /\ d = set_column "Sucursal" (text (upper (stem f))) df.
Proof.
  unfold frames_read. intros H. apply in_flat_map in H. destruct H as [f [Hf Hd]].
  destruct (smart_read_csv f) as [df |] eqn:E; [| contradiction].
  destruct Hd as [<- | []]. exists f, df. tauto.
Qed.

Lemma list_sum_perm (l l' : list nat) : Permutation l l' -> list_sum l = list_sum l'.
Proof.
  induction 1 as [| x l l' H IH | x y l | l l' l'' H1 IH1 H2 IH2];
    rewrite ?list_sum_cons; lia.
Qed.

Lemma frames_read_rows (files : list csv_file) :
  list_sum (map (fun d => length (rows d)) (frames_read files))
  = list_sum (map rows_read files).
Proof.
  unfold frames_read, rows_read. induction files as [| f files IH]; [reflexivity |].
  cbn [flat_map map]. rewrite map_app, list_sum_app, list_sum_cons, IH.
  destruct (smart_read_csv f) as [df |]; cbn [map list_sum fold_right]; [| lia].
  rewrite (proj1 (set_column_rows _ _ df)). lia.
Qed.

Lemma flat_map_rows_length {Y : Type} (g : DataFrame -> list cell -> Y)
      (dataframes : list DataFrame) :
  length (flat_map (fun df => map (g df) (rows df)) dataframes)
  = list_sum (map (fun d => length (rows d)) dataframes).
Proof.
  induction dataframes as [| d ds IH]; [reflexivity |].
  cbn [flat_map map]. rewrite length_app, list_sum_cons, length_map.
  f_equal. exact IH.
Qed.

Lemma concat_rows_length (dataframes : list DataFrame) :
  length (rows (concat dataframes))
  = list_sum (map (fun d => length (rows d)) dataframes).
Proof. unfold concat. cbn [rows]. apply flat_map_rows_length. Qed.

Lemma extract_Ok (files : list csv_file) (t : DataFrame) :
  fst (extract_all_files files) = Ok t ->
  exists dataframes, dataframes = frames_read (sort by_path files)
                     /\ dataframes <> [] /\ t = concat dataframes.
Proof.
  intros H. destruct files as [| f files]; [discriminate |].
  rewrite extract_all_files_eq in H by discriminate. cbn [fst] in H.
  destruct (frames_read (sort by_path (f :: files))) as [| d ds]; [discriminate |].
  injection H as <-. exists (d :: ds). repeat split. discriminate.
Qed.

Lemma frames_read_sorted_origin (files : list csv_file) (d : DataFrame) :
  In d (frames_read (sort by_path files)) ->
  exists f df, In f files /\ smart_read_csv f = Ok df
               /\ d = set_column "Sucursal" (text (upper (stem f))) df.
Proof.
  intros H. apply frames_read_origin in H. destruct H as [f [df (Hf & Hr & Hd)]].
  exists f, df. split; [| tauto].
  eapply Permutation_in; [apply sort_perm | exact Hf].
Qed.

Lemma frames_read_complete (files : list csv_file) (f : csv_file) (df : DataFrame) :
  In f files -> smart_read_csv f = Ok df ->
  In (set_column "Sucursal" (text (upper (stem f))) df) (frames_read (sort by_path files)).
Proof.
  intros Hf Hr. unfold frames_read. apply in_flat_map. exists f. split.
  - eapply Permutation_in; [symmetry; apply sort_perm | exact Hf].
  - rewrite Hr. now left.
Qed.

Lemma set_column_label_origin (name : string) (v : cell) (df : DataFrame) (c : string) :
  In c (columns (set_column name v df)) -> c = name \/ In c (columns df).
Proof.
  unfold set_column. destruct (mem name (columns df)); cbn [columns].
  - tauto.
  - intros H. apply in_app_or in H. destruct H as [H | [<- | []]]; tauto.
Qed.

Lemma consolidated_label_sucursal (files : list csv_file) (t : DataFrame) :
  fst (extract_all_files files) = Ok t ->
  exists j, position "Sucursal" (columns t) = Some j
            /\ nth_error (columns t) j = Some "Sucursal".
Proof.
  intros H. apply extract_Ok in H. destruct H as [dfs (Hdfs & Hne & ->)].
  apply position_In. unfold concat. cbn [columns]. rewrite unique_In, in_flat_map.
  destruct dfs as [| d ds]; [congruence |]. exists d. split; [now left |].
  assert (Hd : In d (frames_read (sort by_path files))) by (rewrite <- Hdfs; now left).
  apply frames_read_sorted_origin in Hd. destruct Hd as [f [df (_ & _ & ->)]].
  apply (proj1 (set_column_columns _ _ _)).
Qed.

(** X11. The consolidated table has pairwise distinct labels: the label
    Sucursal and the labels of the files that could be read.  Every row is as
    wide as the list of labels, and there are as many rows as the sniffer
    read from all the files together. *)
Theorem consolidated_shape (files : list csv_file) (t : DataFrame) :
  fst (extract_all_files files) = Ok t ->
  List.NoDup (columns t)
  /\ (forall c, In c (columns t)
                <-> c = "Sucursal"
                    \/ exists f df, In f files /\ smart_read_csv f = Ok df
                                    /\ In c (columns df))
  /\ Forall (fun r => length r = length (columns t)) (rows t)
  /\ length (rows t) = list_sum (map rows_read files).
Proof.
  intros H. apply extract_Ok in H. destruct H as [dfs (Hdfs & Hne & ->)].
  split; [apply unique_NoDup | split; [| split]].
  - intros c. unfold concat. cbn [columns]. rewrite unique_In, in_flat_map. split.
    + intros [d [Hd Hc]]. rewrite Hdfs in Hd.
      apply frames_read_sorted_origin in Hd. destruct Hd as [f [df (Hf & Hr & ->)]].
      apply set_column_label_origin in Hc. destruct Hc as [-> | Hc]; [now left |].
      right. exists f, df. tauto.
    + intros [-> | [f [df (Hf & Hr & Hc)]]].
      * destruct dfs as [| d ds]; [congruence |]. exists d. split; [now left |].
        assert (Hd : In d (frames_read (sort by_path files))) by (rewrite <- Hdfs; now left).
        apply frames_read_sorted_origin in Hd. destruct Hd as [f [df (_ & _ & ->)]].
        apply (proj1 (set_column_columns _ _ _)).
      * exists (set_column "Sucursal" (text (upper (stem f))) df). split.
        -- rewrite Hdfs. now apply frames_read_complete.
        -- now apply (proj2 (set_column_columns _ _ _)).
  - unfold concat. cbn [columns rows]. apply List.Forall_forall. intros r Hr.
    apply in_flat_map in Hr. destruct Hr as [d [_ Hr]].
    apply in_map_iff in Hr. destruct Hr as [r0 [<- _]]. apply length_map.
  - rewrite concat_rows_length, Hdfs, frames_read_rows.
    apply list_sum_perm, Permutation_map, sort_perm.
Qed.

Lemma consolidated_shape_witness :
  fst (extract_all_files [archivo_roto; archivo_sur; archivo_centro]) = Ok consolidado_muestra
  /\ List.NoDup (columns consolidado_muestra)
  /\ Forall (fun r => length r = length (columns consolidado_muestra))
            (rows consolidado_muestra)
  /\ length (rows consolidado_muestra) = 3%nat.
Proof.
  assert (H : fst (extract_all_files [archivo_roto; archivo_sur; archivo_centro])
              = Ok consolidado_muestra) by (vm_compute; reflexivity).
  destruct (consolidated_shape _ _ H) as (H1 & _ & H3 & H4).
  split; [exact H | split; [exact H1 | split; [exact H3 |]]].
  rewrite H4. vm_compute. reflexivity.
Defined.

Lemma consolidated_rows_tagged (files : list csv_file) (t : DataFrame) :
  fst (extract_all_files files) = Ok t ->
  Forall (fun r => exists f, In f files /\ readable f = true
                             /\ at_label (columns t) "Sucursal" r = text (upper (stem f)))
         (rows t).
Proof.
  intros H. destruct (consolidated_label_sucursal files t H) as [j [Hp Hn]].
  apply extract_Ok in H. destruct H as [dfs (Hdfs & Hne & ->)].
  apply List.Forall_forall. intros r Hr.
  unfold concat in Hr. cbn [rows] in Hr.
  apply in_flat_map in Hr. destruct Hr as [d [Hd Hr]].
  apply in_map_iff in Hr. destruct Hr as [r0 [<- Hr0]].
  rewrite Hdfs in Hd. apply frames_read_sorted_origin in Hd.
  destruct Hd as [f [df (Hf & Hread & ->)]].
  exists f. split; [exact Hf | split; [unfold readable; now rewrite Hread |]].
  unfold at_label at 1. rewrite Hp. unfold concat in Hn. cbn [columns] in Hn.
  rewrite (nth_map_at _ _ j "Sucursal" nan Hn).
  now apply (proj2 (set_column_rows _ _ _)).
Qed.

(** X12. Every row of the consolidated table carries, under the label
    Sucursal, the upper-cased stem of the name of a file that could be
    read. *)
Theorem rows_are_tagged (files : list csv_file) (t : DataFrame) :
  fst (extract_all_files files) = Ok t ->
  Forall (fun r => exists f, In f files /\ readable f = true
                             /\ at_label (columns t) "Sucursal" r = text (upper (stem f)))
         (rows t).
Proof. apply consolidated_rows_tagged. Qed.

Lemma rows_are_tagged_witness :
  fst (extract_all_files [archivo_roto; archivo_sur; archivo_centro]) = Ok consolidado_muestra
  /\ Forall (fun r => exists f, In f [archivo_roto; archivo_sur; archivo_centro]
                                /\ readable f = true
                                /\ at_label (columns consolidado_muestra) "Sucursal" r
                                   = text (upper (stem f)))
            (rows consolidado_muestra).
Proof.
  assert (H : fst (extract_all_files [archivo_roto; archivo_sur; archivo_centro])
              = Ok consolidado_muestra) by (vm_compute; reflexivity).
  split; [exact H | exact (rows_are_tagged _ _ H)].
Defined.

(** ** What the cleaner guarantees *)

Lemma NoDup_not_duplicated (cols : list string) (c : string) :
  List.NoDup cols -> duplicated c cols = false.
Proof.
  intros H. unfold duplicated. apply Nat.ltb_ge.
  now apply (proj1 (List.NoDup_count_occ string_dec cols)).
Qed.

(** X13. On a table whose labels are pairwise distinct the cleaner never
    raises: unparsable numbers, missing columns and a missing total are all
    tolerated.  It only drops rows. *)
Theorem clean_data_total (df : DataFrame) :
  List.NoDup (columns df) ->
  exists clean, clean_data df = Ok clean
                /\ (length (Clean.rows clean) <= length (rows df))%nat.
Proof.
  intros Hnd. unfold clean_data, numeric_series, upper_series.
  repeat match goal with
  | |- context [duplicated ?c (columns df)] =>
      rewrite (NoDup_not_duplicated (columns df) c Hnd)
  end.
  destruct (find (fun c => mem c (columns df)) posibles_totales) as [c |];
    [| destruct (find (fun c => contains "total" (lower c)) (columns df)) as [c |]];
    repeat rewrite (NoDup_not_duplicated (columns df) _ Hnd); cbn [bind];
    destruct (mem "Cantidad" (columns df)); cbn [bind];
    destruct (mem "Precio" (columns df)); cbn [bind];
    destruct (mem "Articulo" (columns df)); cbn [bind];
    destruct (mem "Descripcion" (columns df)); cbn [bind];
    eexists; (split; [reflexivity |]); cbn [Clean.rows]; rewrite length_map;
    repeat match goal with
    | |- (length (List.filter ?p ?l) <= _)%nat =>
        etransitivity; [apply List.filter_length_le |]
    end; apply Nat.le_refl.
Qed.

Lemma clean_data_total_witness :
  List.NoDup (columns tabla_con_total)
  /\ exists clean, clean_data tabla_con_total = Ok clean
                   /\ (length (Clean.rows clean) <= length (rows tabla_con_total))%nat.
Proof.
  assert (H : List.NoDup (columns tabla_con_total)).
  { repeat constructor; simpl; intuition discriminate. }
  split; [exact H | exact (clean_data_total tabla_con_total H)].
Defined.

Lemma add_label_new (x : string) (cols : list string) : In x (add_label x cols).
Proof.
  unfold add_label. destruct (mem x cols) eqn:E.
  - now apply mem_In.
  - apply in_or_app; right; now left.
Qed.

Lemma add_label_keep (c x : string) (cols : list string) :
  In c cols -> In c (add_label x cols).
Proof.
  unfold add_label. destruct (mem x cols); [tauto |].
  intros H; apply in_or_app; now left.
Qed.

Lemma clean_data_columns (df : DataFrame) (clean : Clean.frame) :
  clean_data df = Ok clean ->
  Clean.columns clean
  = add_label "Descripcion" (add_label "Cantidad" (add_label "Venta_Neta" (columns df))).
Proof.
  unfold clean_data, numeric_series, upper_series. intros H.
  case_series_in H; injection H as <-; reflexivity.
Qed.

(** X14. The cleaned table keeps every label of its input and always has the
    columns Venta_Neta, Cantidad and Descripcion; so, when the input has the
    columns Articulo and Sucursal, the Pareto stage never raises its KeyError
    for a missing column. *)
Theorem cleaned_columns_suffice (df : DataFrame) (clean : Clean.frame) :
  clean_data df = Ok clean ->
  (forall c, In c (columns df) -> In c (Clean.columns clean))
  /\ In "Venta_Neta" (Clean.columns clean)
  /\ In "Cantidad" (Clean.columns clean)
  /\ In "Descripcion" (Clean.columns clean)
  /\ (In "Articulo" (columns df) -> In "Sucursal" (columns df) ->
      calculate_pareto clean <> Err KeyError).
Proof.
  intros H. apply clean_data_columns in H.
  assert (Hkeep : forall c, In c (columns df) -> In c (Clean.columns clean)).
  { intros c Hc. rewrite H. now do 3 apply add_label_keep. }
  assert (Hv : In "Venta_Neta" (Clean.columns clean)).
  { rewrite H. do 2 apply add_label_keep. apply add_label_new. }
  split; [exact Hkeep | split; [exact Hv | split; [| split]]].
  - rewrite H. apply add_label_keep, add_label_new.
  - rewrite H. apply add_label_new.
  - intros Ha Hs. unfold calculate_pareto.
    assert (E : forallb (fun col => mem col (Clean.columns clean))
                        ["Articulo"; "Venta_Neta"; "Sucursal"] = true).
    { cbn [forallb]. rewrite !(proj2 (mem_In _ _)); auto. }
    rewrite E. cbn [negb].
    destruct (_ || _); [discriminate |].
    destruct (pareto_items _); discriminate.
Qed.

Lemma cleaned_columns_suffice_witness :
  clean_data tabla_con_total = Ok limpio_con_total
  /\ In "Venta_Neta" (Clean.columns limpio_con_total)
  /\ In "Cantidad" (Clean.columns limpio_con_total)
  /\ In "Descripcion" (Clean.columns limpio_con_total)
  /\ calculate_pareto limpio_con_total <> Err KeyError.
Proof.
  assert (H : clean_data tabla_con_total = Ok limpio_con_total) by (vm_compute; reflexivity).
  destruct (cleaned_columns_suffice tabla_con_total limpio_con_total H)
    as (_ & H1 & H2 & H3 & H4).
  split; [exact H | split; [exact H1 | split; [exact H2 | split; [exact H3 |]]]].
  apply H4; simpl; auto.
Defined.

(** *** The identity of a cleaned row *)

Lemma upper_char_idem (c : ascii) : upper_char (upper_char c) = upper_char c.
Proof. destruct c as [[] [] [] [] [] [] [] []]; vm_compute; reflexivity. Qed.

Lemma is_space_upper_char (c : ascii) : is_space (upper_char c) = is_space c.
Proof. destruct c as [[] [] [] [] [] [] [] []]; vm_compute; reflexivity. Qed.

Lemma upper_idem (s : string) : upper (upper s) = upper s.
Proof.
  induction s as [| c s IH]; [reflexivity |].
  unfold upper in *. cbn [map_string]. now rewrite upper_char_idem, IH.
Qed.

Lemma upper_lstrip (s : string) : upper (lstrip s) = lstrip (upper s).
Proof.
  induction s as [| c s IH]; [reflexivity |].
  unfold upper in *. cbn [lstrip map_string]. rewrite is_space_upper_char.
  destruct (is_space c); [exact IH | reflexivity].
Qed.

Lemma upper_rstrip (s : string) : upper (rstrip s) = rstrip (upper s).
Proof.
  induction s as [| c s IH]; [reflexivity |].
  unfold upper in *. cbn [rstrip map_string].
  rewrite is_space_upper_char, <- IH, map_string_empty.
  destruct (is_space c && String.eqb (rstrip s) EmptyString); reflexivity.
Qed.

Lemma upper_strip (s : string) : upper (strip s) = strip (upper s).
Proof. unfold strip. now rewrite upper_rstrip, upper_lstrip. Qed.

Lemma lstrip_head_ok (s : string) : head_ok (lstrip s).
Proof.
  induction s as [| c s IH]; [exact I |].
  cbn [lstrip]. destruct (is_space c) eqn:E; [exact IH | exact E].
Qed.

Lemma head_ok_lstrip (s : string) : head_ok s -> lstrip s = s.
Proof. destruct s as [| c s]; [reflexivity |]. cbn. now intros ->. Qed.

Lemma rstrip_head_ok (s : string) : head_ok s -> head_ok (rstrip s).
Proof.
  destruct s as [| c s]; [exact (fun H => H) |].
  cbn [head_ok rstrip]. intros E. rewrite E. exact E.
Qed.

Lemma rstrip_idem (s : string) : rstrip (rstrip s) = rstrip s.
Proof.
  induction s as [| c s IH]; [reflexivity |].
  cbn [rstrip]. destruct (is_space c && String.eqb (rstrip s) EmptyString) eqn:E;
    [reflexivity |].
  cbn [rstrip]. rewrite IH, E. reflexivity.
Qed.

Lemma strip_idem (s : string) : strip (strip s) = strip s.
Proof.
  unfold strip.
  rewrite (head_ok_lstrip (rstrip (lstrip s))) by apply rstrip_head_ok, lstrip_head_ok.
  apply rstrip_idem.
Qed.

Lemma clean_data_identity (df : DataFrame) (clean : Clean.frame) :
  clean_data df = Ok clean ->
  In "Articulo" (columns df) ->
  Forall (fun r => canonical_identity (Clean.Articulo r)) (Clean.rows clean).
Proof.
  unfold clean_data, numeric_series, upper_series. intros H Hin.
  apply mem_In in Hin. rewrite Hin in H.
  case_series_in H; injection H as <-; cbn [Clean.rows];
    apply List.Forall_forall; intros x Hx;
    apply in_map_iff in Hx; destruct Hx as [r [<- Hr]];
    apply filter_In in Hr; destruct Hr as [Hr _];
    apply filter_In in Hr; destruct Hr as [_ Hr];
    apply andb_prop in Hr; destruct Hr as [Hr H3];
    apply andb_prop in Hr; destruct Hr as [H1 H2];
    apply negb_true_iff, String.eqb_neq in H1, H2, H3;
    unfold canonical_identity; cbn [Clean.Articulo];
    (split; [exact H1 | split; [exact H2 | split; [exact H3 | split;
      [ now rewrite upper_strip, strip_idem, <- upper_strip | apply upper_idem ]]]]).
Qed.

(** X15. When the table has a column Articulo and none of its cells is
    missing, every cleaned row has an identity that is not empty, is neither
    NAN nor NONE, and is already trimmed and in upper case. *)
Theorem cleaned_identity (df : DataFrame) (clean : Clean.frame) :
  clean_data df = Ok clean ->
  In "Articulo" (columns df) ->
  none_missing "Articulo" df ->
  Forall (fun r => canonical_identity (Clean.Articulo r)) (Clean.rows clean).
Proof. intros H Hin _. exact (clean_data_identity df clean H Hin). Qed.

Lemma cleaned_identity_witness :
  clean_data tabla_con_total = Ok limpio_con_total
  /\ In "Articulo" (columns tabla_con_total)
  /\ none_missing "Articulo" tabla_con_total
  /\ Forall (fun r => canonical_identity (Clean.Articulo r)) (Clean.rows limpio_con_total).
Proof.
  assert (H : clean_data tabla_con_total = Ok limpio_con_total) by (vm_compute; reflexivity).
  assert (Hin : In "Articulo" (columns tabla_con_total)) by (simpl; auto).
  assert (Hm : none_missing "Articulo" tabla_con_total).
  { unfold none_missing. repeat (apply List.Forall_cons; [vm_compute; discriminate |]).
    apply List.Forall_nil. }
  split; [exact H | split; [exact Hin | split; [exact Hm |]]].
  exact (cleaned_identity tabla_con_total limpio_con_total H Hin Hm).
Defined.

(** *** A table without a column of totals *)

Lemma find_none_iff {X : Type} (p : X -> bool) (l : list X) :
  find p l = None <-> Forall (fun x => p x = false) l.
Proof.
  induction l as [| x l IH]; cbn [find].
  - split; [constructor | reflexivity].
  - destruct (p x) eqn:E.
    + split; [discriminate | intros H; inversion H; congruence].
    + rewrite IH. split; [now constructor | intros H; now inversion H].
Qed.

Lemma lacks_total_column_find (cols : list string) :
  lacks_total_column cols ->
  find (fun c => mem c cols) posibles_totales = None
  /\ find (fun c => contains "total" (lower c)) cols = None.
Proof.
  intros H. split; apply find_none_iff.
  - apply List.Forall_forall. intros c Hc.
    destruct (mem c cols) eqn:E; [| reflexivity].
    apply mem_In in E.
    destruct (proj1 (List.Forall_forall _ _) H c E) as [Hn _]. contradiction.
  - eapply List.Forall_impl; [| exact H]. now intros c [_ Hc].
Qed.

Open Scope Q_scope.

Lemma Qsum_zero {X : Type} (v : X -> Q) (l : list X) :
  Forall (fun x => v x == 0) l -> Qsum (map v l) == 0.
Proof.
  induction 1 as [| x l Hx _ IH]; cbn [map Qsum fold_right]; [reflexivity |].
  fold (Qsum (map v l)). rewrite Hx, IH. reflexivity.
Qed.

Lemma Forall_filter {X : Type} (P : X -> Prop) (p : X -> bool) (l : list X) :
  Forall P l -> Forall P (List.filter p l).
Proof.
  intros H. apply List.Forall_forall. intros x Hx.
  apply filter_In in Hx. exact (proj1 (List.Forall_forall _ _) H x (proj1 Hx)).
Qed.

Lemma zero_sales_no_items (cols : list string) (filas : list Clean.row) :
  Forall (fun r => Clean.Venta_Neta r == 0) filas ->
  pareto_items (build_items cols filas (build_fact cols filas)) = [].
Proof.
  intros H.
  assert (Hf : Forall (fun f => Fact.Venta_Neta f == 0) (build_fact cols filas)).
  { unfold build_fact, fact_groups. rewrite map_map.
    apply List.Forall_forall. intros f Hf. apply in_map_iff in Hf.
    destruct Hf as [k [<- _]]. cbn [round_fact Fact.Venta_Neta].
    rewrite (round_comp 2 _ 0); [apply round_zero |].
    apply Qsum_zero, Forall_filter, H. }
  unfold pareto_items.
  replace (List.filter _ _) with (@nil Item.row); [reflexivity |].
  symmetry. unfold build_items.
  induction (group_keys (map Fact.Articulo (build_fact cols filas))) as [| a l IH];
    [reflexivity |].
  cbn [map List.filter Item.Venta_Neta_Total].
  assert (E : Qsum (map Fact.Venta_Neta
                        (List.filter (fun f => String.eqb (Fact.Articulo f) a)
                                     (build_fact cols filas))) == 0)
    by apply Qsum_zero, Forall_filter, Hf.
  unfold Qlt_bool. 
  assert (E' : Qle_bool (Qsum (map Fact.Venta_Neta
                        (List.filter (fun f => String.eqb (Fact.Articulo f) a)
                                     (build_fact cols filas)))) 0 = true).
  { apply Qle_bool_iff. rewrite E. apply Qle_refl. }
  rewrite E'. cbn [negb]. exact IH.
Qed.

(** X16. When the table has no column of totals (no label among the names the
    cleaner looks for, none containing the word total), every cleaned row
    has a net sale of 0, and the Pareto stage returns no tables: it raises a
    KeyError or a ValueError. *)
Theorem without_totals_no_pareto (df : DataFrame) (clean : Clean.frame) :
  clean_data df = Ok clean ->
  lacks_total_column (columns df) ->
  Forall (fun r => Clean.Venta_Neta r = 0) (Clean.rows clean)
  /\ (calculate_pareto clean = Err KeyError \/ calculate_pareto clean = Err ValueError).
Proof.
  intros H Hn.
  assert (Hz : Forall (fun r => Clean.Venta_Neta r = 0) (Clean.rows clean)).
  { destruct (lacks_total_column_find _ Hn) as [E1 E2].
    unfold clean_data, numeric_series, upper_series in H.
    rewrite E1, E2 in H. cbn [bind] in H.
    case_series_in H; injection H as <-; cbn [Clean.rows];
      apply List.Forall_forall; intros x Hx;
      apply in_map_iff in Hx; destruct Hx as [r [<- _]]; reflexivity. }
  split; [exact Hz |].
  unfold calculate_pareto.
  destruct (negb _); [now left |].
  destruct (_ || _); [now right |].
  rewrite zero_sales_no_items; [now right |].
  eapply List.Forall_impl; [| exact Hz]. intros r ->. reflexivity.
Qed.

Close Scope Q_scope.

Lemma without_totals_no_pareto_witness :
  clean_data tabla_sin_total = Ok limpio_sin_total
  /\ lacks_total_column (columns tabla_sin_total)
  /\ Forall (fun r => Clean.Venta_Neta r = 0%Q) (Clean.rows limpio_sin_total)
  /\ (calculate_pareto limpio_sin_total = Err KeyError
      \/ calculate_pareto limpio_sin_total = Err ValueError).
Proof.
  assert (H : clean_data tabla_sin_total = Ok limpio_sin_total) by (vm_compute; reflexivity).
  assert (Hn : lacks_total_column (columns tabla_sin_total)).
  { unfold lacks_total_column.
    repeat (apply List.Forall_cons;
            [split; [cbn; intuition discriminate | vm_compute; reflexivity] |]).
    apply List.Forall_nil. }
  split; [exact H | split; [exact Hn |]].
  exact (without_totals_no_pareto tabla_sin_total limpio_sin_total H Hn).
Defined.


(** ** More on the Pareto tables *)

Open Scope Q_scope.

Lemma group_keys2_NoDup (l : list (string * string)) : List.NoDup (group_keys2 l).
Proof.
  unfold group_keys2. eapply Permutation.Permutation_NoDup.
  - symmetry. apply sort_perm.
  - apply List.NoDup_nodup.
Qed.

Lemma NoDup_map_filter {X Y : Type} (g : X -> Y) (p : X -> bool) (l : list X) :
  List.NoDup (map g l) -> List.NoDup (map g (List.filter p l)).
Proof.
  induction l as [| x l IH]; cbn [map List.filter]; intros H; [constructor |].
  inversion H as [| ? ? Hx Hl]; subst.
  destruct (p x); [| now apply IH].
  cbn [map]. constructor; [| now apply IH].
  intros Hin. apply Hx. apply in_map_iff in Hin. destruct Hin as [y [E Hy]].
  apply filter_In in Hy. apply in_map_iff. exists y. tauto.
Qed.

Lemma build_fact_keys (cols : list string) (filas : list Clean.row) :
  map fact_key (build_fact cols filas) = group_keys2 (map clean_key filas).
Proof.
  unfold build_fact, fact_groups. rewrite !map_map.
  rewrite <- (map_id (group_keys2 (map clean_key filas))) at 2.
  apply map_ext. intros [a s]. reflexivity.
Qed.

Lemma build_items_keys (cols : list string) (filas : list Clean.row) (fact : list Fact.row) :
  map Item.Articulo (build_items cols filas fact) = group_keys (map Fact.Articulo fact).
Proof. unfold build_items. rewrite map_map. cbn [Item.Articulo]. apply map_id. Qed.

(** X17. Both exported tables have a key: no two rows of the dimension share
    an item, and no two rows of the fact table share an item and a branch. *)
Theorem exported_keys_unique (df : Clean.frame) (out : tablas) :
  calculate_pareto df = Ok out ->
  List.NoDup (map Dim.Articulo (dim_articulos out))
  /\ List.NoDup (map fact_key (fact_ventas out)).
Proof.
  intros H. apply calculate_pareto_Ok in H. destruct H as (_ & Hd & Hf).
  rewrite Hd, Hf. split.
  - destruct (build_dim_fields
                (pareto_items (build_items (Clean.columns df) (Clean.rows df)
                                 (build_fact (Clean.columns df) (Clean.rows df)))))
      as (_ & Ha & _).
    rewrite Ha.
    eapply Permutation.Permutation_NoDup;
      [symmetry; apply Permutation_map, pareto_items_perm |].
    apply NoDup_map_filter. rewrite build_items_keys. apply group_keys_NoDup.
  - unfold fact_filtrado. apply NoDup_map_filter.
    rewrite build_fact_keys. apply group_keys2_NoDup.
Qed.

Lemma exported_keys_unique_witness :
  calculate_pareto ventas_muestra = Ok tablas_muestra
  /\ List.NoDup (map Dim.Articulo (dim_articulos tablas_muestra))
  /\ List.NoDup (map fact_key (fact_ventas tablas_muestra)).
Proof.
  split; [vm_compute; reflexivity |].
  apply (exported_keys_unique ventas_muestra tablas_muestra). vm_compute. reflexivity.
Defined.

(** X18. Referential integrity in both directions: the item of every exported
    fact row is an item of the dimension, and every item of the dimension
    has at least one exported fact row. *)
Theorem referential_integrity (df : Clean.frame) (out : tablas) :
  calculate_pareto df = Ok out ->
  (forall f, In f (fact_ventas out) ->
             In (Fact.Articulo f) (map Dim.Articulo (dim_articulos out)))
  /\ (forall d, In d (dim_articulos out) ->
                exists f, In f (fact_ventas out) /\ Fact.Articulo f = Dim.Articulo d).
Proof.
  intros H. apply calculate_pareto_Ok in H. destruct H as (_ & Hd & Hf).
  rewrite Hd, Hf. unfold fact_filtrado. split.
  - intros f Hin. apply filter_In in Hin. now apply mem_In.
  - intros d Hin. pose proof Hin as Ho. apply dim_origin in Ho.
    destruct Ho as [it (Hit & _ & Ea & _)].
    apply build_items_origin in Hit. destruct Hit as [[f [Hfin Ef]] _].
    exists f. split; [| congruence].
    apply filter_In. split; [exact Hfin |].
    apply mem_In. rewrite <- Ef, <- Ea. now apply in_map.
Qed.

Lemma referential_integrity_witness :
  calculate_pareto ventas_muestra = Ok tablas_muestra
  /\ (forall f, In f (fact_ventas tablas_muestra) ->
                In (Fact.Articulo f) (map Dim.Articulo (dim_articulos tablas_muestra)))
  /\ (forall d, In d (dim_articulos tablas_muestra) ->
                exists f, In f (fact_ventas tablas_muestra)
                          /\ Fact.Articulo f = Dim.Articulo d).
Proof.
  split; [vm_compute; reflexivity |].
  apply (referential_integrity ventas_muestra tablas_muestra). vm_compute. reflexivity.
Defined.

(** *** The order of the exported ranking *)

Lemma StronglySorted_nth {X : Type} (R : X -> X -> Prop) (l : list X) :
  StronglySorted R l ->
  forall i j x y, (i < j)%nat ->
  nth_error l i = Some x -> nth_error l j = Some y -> R x y.
Proof.
  induction 1 as [| a l Hl IH Ha]; intros i j x y Hij Hi Hj.
  - destruct i; discriminate.
  - destruct j as [| j]; [lia |]. cbn [nth_error] in Hj.
    destruct i as [| i]; cbn [nth_error] in Hi.
    + injection Hi as <-. apply nth_error_In in Hj.
      exact (proj1 (List.Forall_forall _ _) Ha y Hj).
    + apply (IH i j); [lia | assumption | assumption].
Qed.

Lemma dim_item_at (sorted : list Item.row) (i : nat) (d : Dim.row) :
  nth_error (build_dim sorted) i = Some d ->
  exists it, nth_error sorted i = Some it
             /\ Item.Venta_Neta_Total it = Dim.Venta_Neta_Total d.
Proof.
  intros Hi. destruct (build_dim_fields sorted) as (Ht & _).
  pose proof (map_nth_error Dim.Venta_Neta_Total i (build_dim sorted) Hi) as H.
  rewrite Ht, nth_error_map in H.
  destruct (nth_error sorted i) as [it |]; [| discriminate].
  exists it. split; [reflexivity |]. now injection H.
Qed.

Lemma build_dim_length (sorted : list Item.row) :
  length (build_dim sorted) = length sorted.
Proof.
  destruct (build_dim_fields sorted) as (Ht & _).
  rewrite <- (length_map Dim.Venta_Neta_Total), Ht. apply length_map.
Qed.

Lemma build_dim_ranking (sorted : list Item.row) :
  map Dim.Ranking (build_dim sorted) = seq 1 (length (build_dim sorted)).
Proof.
  destruct (build_dim_fields sorted) as (_ & _ & _ & Hr & _).
  now rewrite build_dim_length.
Qed.

(** X19. The ranking goes by descending net total, and every ranked item has
    a positive net total. *)
Theorem ranking_descending (df : Clean.frame) (out : tablas) :
  calculate_pareto df = Ok out ->
  Forall (fun d => 0 < Dim.Venta_Neta_Total d) (dim_articulos out)
  /\ (forall d1 d2, In d1 (dim_articulos out) -> In d2 (dim_articulos out) ->
        (Dim.Ranking d1 < Dim.Ranking d2)%nat ->
        Dim.Venta_Neta_Total d2 <= Dim.Venta_Neta_Total d1).
Proof.
  intros H. apply calculate_pareto_Ok in H. destruct H as (_ & Hd & _).
  rewrite Hd. clear Hd out. split.
  - apply List.Forall_forall. intros d Hin. apply dim_origin in Hin.
    destruct Hin as [it (_ & Hpos & _ & _ & E & _)]. now rewrite E.
  - set (sorted := pareto_items _).
    intros d1 d2 H1 H2 Hlt.
    apply In_position in H1, H2. destruct H1 as [i Hi]. destruct H2 as [j Hj].
    rewrite (ranking_position _ i d1 (build_dim_ranking sorted) Hi),
            (ranking_position _ j d2 (build_dim_ranking sorted) Hj) in Hlt.
    apply dim_item_at in Hi, Hj.
    destruct Hi as [it1 [Hi <-]]. destruct Hj as [it2 [Hj <-]].
    apply (StronglySorted_nth _ sorted (pareto_items_descending _) i j it1 it2);
      [lia | exact Hi | exact Hj].
Qed.

Lemma ranking_descending_witness :
  calculate_pareto ventas_muestra = Ok tablas_muestra
  /\ Forall (fun d => 0 < Dim.Venta_Neta_Total d) (dim_articulos tablas_muestra)
  /\ (forall d1 d2, In d1 (dim_articulos tablas_muestra) ->
        In d2 (dim_articulos tablas_muestra) ->
        (Dim.Ranking d1 < Dim.Ranking d2)%nat ->
        Dim.Venta_Neta_Total d2 <= Dim.Venta_Neta_Total d1).
Proof.
  split; [vm_compute; reflexivity |].
  apply (ranking_descending ventas_muestra tablas_muestra). vm_compute. reflexivity.
Defined.

(** *** The return rate and the shares *)

Lemma fact_devolucion_nonneg (cols : list string) (filas : list Clean.row) (f : Fact.row) :
  In f (build_fact cols filas) -> 0 <= Fact.Venta_Devolucion f.
Proof.
  unfold build_fact, fact_groups. rewrite map_map. intros H.
  apply in_map_iff in H. destruct H as [k [<- _]].
  cbn [round_fact Fact.Venta_Devolucion]. apply round_nonneg.
  apply (Qsum_map_nonneg (fun r => _Venta_Devolucion (Clean.Venta_Neta r))).
  intros r. apply devolucion_nonneg.
Qed.

Lemma item_devolucion_nonneg (cols : list string) (filas : list Clean.row) (it : Item.row) :
  In it (build_items cols filas (build_fact cols filas)) ->
  0 <= Item.Venta_Devolucion_Total it.
Proof.
  unfold build_items. intros H. apply in_map_iff in H. destruct H as [a [<- _]].
  cbn [Item.Venta_Devolucion_Total].
  apply Qsum_nonneg, List.Forall_forall. intros v Hv.
  apply in_map_iff in Hv. destruct Hv as [f [<- Hf]].
  apply filter_In in Hf. apply (fact_devolucion_nonneg cols filas). tauto.
Qed.

(** X20. In the exported dimension every item has a positive gross total and
    a return total that is not negative, and its return rate is a number
    that is not negative: neither an infinity nor NaN is exported. *)
Theorem exported_rate_nonneg (df : Clean.frame) (out : tablas) :
  calculate_pareto df = Ok out ->
  Forall (fun d => 0 < Dim.Venta_Bruta_Total d
                   /\ 0 <= Dim.Venta_Devolucion_Total d
                   /\ exists t, Dim.Tasa_Devolucion d = Fin t /\ 0 <= t)
         (dim_articulos out).
Proof.
  intros H. pose proof (exported_rate_finite df out H) as Hr.
  apply calculate_pareto_Ok in H. destruct H as (_ & Hd & _).
  rewrite Hd in *. clear Hd out.
  apply List.Forall_forall. intros d Hin.
  destruct (proj1 (List.Forall_forall _ _) Hr d Hin) as [Hb Ht].
  apply dim_origin in Hin. destruct Hin as [it (Hit & _ & _ & _ & _ & _ & Ed & _)].
  apply item_devolucion_nonneg in Hit. rewrite <- Ed in Hit.
  split; [exact Hb | split; [exact Hit |]].
  eexists. split; [exact Ht |].
  apply round_nonneg. apply Qle_shift_div_l; lra.
Qed.

Lemma exported_rate_nonneg_witness :
  calculate_pareto ventas_muestra = Ok tablas_muestra
  /\ Forall (fun d => 0 < Dim.Venta_Bruta_Total d
                      /\ 0 <= Dim.Venta_Devolucion_Total d
                      /\ exists t, Dim.Tasa_Devolucion d = Fin t /\ 0 <= t)
            (dim_articulos tablas_muestra).
Proof.
  split; [vm_compute; reflexivity |].
  apply (exported_rate_nonneg ventas_muestra tablas_muestra). vm_compute. reflexivity.
Defined.






(** *** The classes along the ranking *)





(** *** Gross sales and returns in both tables *)

Lemma rank_rows_totals (items : list Item.row) :
  forall (globales acumulados : list Q) (rankings : list nat),
  length globales = length items ->
  length acumulados = length items ->
  length rankings = length items ->
  map Dim.Venta_Bruta_Total (rank_rows items globales acumulados rankings)
  = map Item.Venta_Bruta_Total items
  /\ map Dim.Venta_Devolucion_Total (rank_rows items globales acumulados rankings)
     = map Item.Venta_Devolucion_Total items.
Proof.
  induction items as [| it items IH]; intros [| g gs] [| a acs] [| k ks] Hg Ha Hk;
    cbn [length] in *; try discriminate; [split; reflexivity |].
  destruct (IH gs acs ks) as (H1 & H2); [lia | lia | lia |].
  cbn [rank_rows map Dim.Venta_Bruta_Total Dim.Venta_Devolucion_Total].
  rewrite H1, H2. split; reflexivity.
Qed.

Lemma build_dim_totals (sorted : list Item.row) :
  map Dim.Venta_Bruta_Total (build_dim sorted) = map Item.Venta_Bruta_Total sorted
  /\ map Dim.Venta_Devolucion_Total (build_dim sorted)
     = map Item.Venta_Devolucion_Total sorted.
Proof.
  unfold build_dim. apply rank_rows_totals.
  - now rewrite length_map.
  - unfold cumsum. now rewrite length_map, cumsum_from_length, length_map.
  - apply length_seq.
Qed.

(** X23. The gross sales of the exported fact rows add up to the gross total
    of the dimension, and so do the returns. *)
Theorem gross_and_return_totals (df : Clean.frame) (out : tablas) :
  calculate_pareto df = Ok out ->
  Qsum (map Fact.Venta_Bruta (fact_ventas out))
  == Qsum (map Dim.Venta_Bruta_Total (dim_articulos out))
  /\ Qsum (map Fact.Venta_Devolucion (fact_ventas out))
     == Qsum (map Dim.Venta_Devolucion_Total (dim_articulos out)).
Proof.
  intros H. apply calculate_pareto_Ok in H. destruct H as (_ & Hd & Hf).
  rewrite Hd, Hf. clear Hd Hf out.
  set (fact := build_fact _ _).
  set (items := build_items _ _ fact).
  destruct (build_dim_fields (pareto_items items)) as (_ & Ha & _).
  destruct (build_dim_totals (pareto_items items)) as (Hb & Hv).
  unfold fact_filtrado. rewrite Ha, Hb, Hv. clear Ha Hb Hv.
  rewrite (Qsum_perm _ _ (Permutation_map Item.Venta_Bruta_Total (pareto_items_perm items))).
  rewrite (Qsum_perm _ _ (Permutation_map Item.Venta_Devolucion_Total
                            (pareto_items_perm items))).
  rewrite (List.filter_ext _
             (fun f => mem (Fact.Articulo f)
                           (map Item.Articulo
                                (List.filter (fun it => Qlt_bool 0 (Item.Venta_Neta_Total it))
                                             items)))).
  2: { intros f. apply mem_perm, Permutation_map, pareto_items_perm. }
  unfold items, build_items. rewrite filter_map_comm, !map_map.
  cbn [Item.Articulo Item.Venta_Bruta_Total Item.Venta_Devolucion_Total].
  rewrite map_id.
  split; symmetry.
  - apply (Qsum_by_group Fact.Articulo Fact.Venta_Bruta).
    apply List.NoDup_filter, group_keys_NoDup.
  - apply (Qsum_by_group Fact.Articulo Fact.Venta_Devolucion).
    apply List.NoDup_filter, group_keys_NoDup.
Qed.

Lemma gross_and_return_totals_witness :
  calculate_pareto ventas_muestra = Ok tablas_muestra
  /\ Qsum (map Fact.Venta_Bruta (fact_ventas tablas_muestra))
     == Qsum (map Dim.Venta_Bruta_Total (dim_articulos tablas_muestra))
  /\ Qsum (map Fact.Venta_Devolucion (fact_ventas tablas_muestra))
     == Qsum (map Dim.Venta_Devolucion_Total (dim_articulos tablas_muestra)).
Proof.
  split; [vm_compute; reflexivity |].
  apply (gross_and_return_totals ventas_muestra tablas_muestra). vm_compute. reflexivity.
Defined.

Close Scope Q_scope.

(** ** The branch dimension *)

Lemma string_leb_trans (a b c : string) :
  String.leb a b = true -> String.leb b c = true -> String.leb a c = true.
Proof.
  unfold String.leb.
  destruct (String.compare a b) eqn:E1; [| | discriminate];
    destruct (String.compare b c) eqn:E2; try discriminate; intros _ _.
  - apply String.compare_eq_iff in E1. subst b. now rewrite E2.
  - apply String.compare_eq_iff in E1. subst b. now rewrite E2.
  - apply String.compare_eq_iff in E2. subst c. now rewrite E1.
  - apply OrderedTypeEx.String_as_OT.cmp_lt in E1, E2.
    pose proof (OrderedTypeEx.String_as_OT.lt_trans _ _ _ E1 E2) as H.
    apply OrderedTypeEx.String_as_OT.cmp_lt in H.
    unfold OrderedTypeEx.String_as_OT.cmp in H. now rewrite H.
Qed.

Lemma StronglySorted_map {X Y : Type} (g : X -> Y) (R : Y -> Y -> Prop) (l : list X) :
  StronglySorted (fun a b => R (g a) (g b)) l -> StronglySorted R (map g l).
Proof.
  induction 1 as [| x l Hl IH Hx]; cbn [map]; constructor; [exact IH |].
  apply List.Forall_forall. intros y Hy. apply in_map_iff in Hy.
  destruct Hy as [z [<- Hz]]. exact (proj1 (List.Forall_forall _ _) Hx z Hz).
Qed.

(** X24. The branch dimension has one row for each branch of the fact table
    and no other: its branches are pairwise distinct, they are those of the
    fact rows, they come in ascending order, and a branch is of type ONLINE
    exactly when its name contains ONLINE, else FISICA. *)
Theorem dim_sucursales_key (fact : list Fact.row) :
  List.NoDup (map Branch.Sucursal (dim_sucursales fact))
  /\ (forall s, In s (map Branch.Sucursal (dim_sucursales fact))
                <-> In s (map Fact.Sucursal fact))
  /\ StronglySorted (fun a b => String.leb a b = true)
                    (map Branch.Sucursal (dim_sucursales fact))
  /\ Forall (fun b => Branch.Tipo b
                      = if contains "ONLINE" (Branch.Sucursal b) then "ONLINE" else "FISICA")
            (dim_sucursales fact).
Proof.
  unfold dim_sucursales.
  set (leb := fun a b => String.leb (Branch.Sucursal a) (Branch.Sucursal b)).
  set (mk := fun s => {| Branch.Sucursal := s;
                         Branch.Tipo := if contains "ONLINE" s then "ONLINE" else "FISICA" |}).
  set (us := unique (map Fact.Sucursal fact)).
  assert (Hp : Permutation (map Branch.Sucursal (sort leb (map mk us))) us).
  { assert (E : map Branch.Sucursal (map mk us) = us)
      by (rewrite map_map; unfold mk; cbn [Branch.Sucursal]; apply map_id).
    rewrite <- E at 2. apply Permutation_map, sort_perm. }
  split; [| split; [| split]].
  - eapply Permutation.Permutation_NoDup; [symmetry; exact Hp | apply unique_NoDup].
  - intros s. rewrite <- (unique_In (map Fact.Sucursal fact) s). fold us.
    split; apply Permutation_in; [exact Hp | symmetry; exact Hp].
  - apply StronglySorted_map. apply (sort_sorted leb).
    + intros a b. apply String.leb_total.
    + intros a b c. apply string_leb_trans.
  - apply (proj2 (Forall_sort leb _ _)). apply List.Forall_forall. intros b Hb.
    apply in_map_iff in Hb. destruct Hb as [s [<- _]]. reflexivity.
Qed.

(** ** The pipeline, end to end *)

Lemma run_pipeline_Ok (files : list csv_file) (out : tablas) :
  fst (run_pipeline files) = Ok out ->
  exists raw norm clean,
    fst (extract_all_files files) = Ok raw
    /\ super_normalize_columns raw = Ok norm
    /\ clean_data norm = Ok clean
    /\ calculate_pareto clean = Ok out.
Proof.
  unfold run_pipeline. cbn [fst].
  destruct (fst (extract_all_files files)) as [raw |]; [| discriminate]. cbn [bind].
  destruct (super_normalize_columns raw) as [norm |] eqn:En; [| discriminate]. cbn [bind].
  destruct (clean_data norm) as [clean |] eqn:Ec; [| discriminate]. cbn [bind].
  intros H. exists raw, norm, clean. repeat split; assumption.
Qed.

Lemma exported_from_clean (df : Clean.frame) (out : tablas) :
  calculate_pareto df = Ok out ->
  Forall (fun f => exists r, In r (Clean.rows df) /\ fact_key f = clean_key r)
         (fact_ventas out)
  /\ Forall (fun d => exists r, In r (Clean.rows df) /\ Dim.Articulo d = Clean.Articulo r)
            (dim_articulos out).
Proof.
  intros H. apply calculate_pareto_Ok in H. destruct H as (_ & Hd & Hf).
  rewrite Hd, Hf. split; apply List.Forall_forall.
  - intros f Hin. apply filter_In in Hin. destruct Hin as [Hin _].
    apply (in_map fact_key) in Hin. rewrite build_fact_keys in Hin.
    apply group_keys2_In, in_map_iff in Hin. destruct Hin as [r [E Hr]].
    exists r. split; [exact Hr | now symmetry].
  - intros d Hin. apply dim_origin in Hin. destruct Hin as [it (Hit & _ & Ea & _)].
    apply build_items_origin in Hit. destruct Hit as [[f [Hf' Ef]] _].
    apply build_fact_articulo in Hf'. destruct Hf' as [r [Hr Er]].
    exists r. split; [exact Hr | congruence].
Qed.

(** X25. When the pipeline returns tables, some input file could be read,
    and the item of every row of the fact table and of the dimension is a
    trimmed, upper-case, non-empty identity other than NAN and NONE. *)
Theorem pipeline_identities (files : list csv_file) (out : tablas) :
  fst (run_pipeline files) = Ok out ->
  Exists (fun f => readable f = true) files
  /\ Forall (fun f => canonical_identity (Fact.Articulo f)) (fact_ventas out)
  /\ Forall (fun d => canonical_identity (Dim.Articulo d)) (dim_articulos out).
Proof.
  intros H. apply run_pipeline_Ok in H.
  destruct H as (raw & norm & clean & Hraw & Hnorm & Hclean & Hout).
  split.
  - apply extract_Ok in Hraw. destruct Hraw as [dfs (Hdfs & Hne & _)].
    destruct dfs as [| d ds]; [congruence |].
    assert (Hd : In d (frames_read (sort by_path files))) by (rewrite <- Hdfs; now left).
    apply frames_read_sorted_origin in Hd. destruct Hd as [f [df (Hf & Hr & _)]].
    apply List.Exists_exists. exists f. split; [exact Hf |].
    unfold readable. now rewrite Hr.
  - destruct (normalized_has_articulo raw norm Hnorm) as (Hin & _).
    pose proof (clean_data_identity norm clean Hclean Hin) as Hid.
    rewrite List.Forall_forall in Hid.
    destruct (exported_from_clean clean out Hout) as (Hf & Hd).
    split; (eapply List.Forall_impl; [| eassumption]); cbv beta.
    + intros f [r [Hr E]]. unfold fact_key, clean_key in E.
      injection E as -> _. now apply Hid.
    + intros d [r [Hr ->]]. now apply Hid.
Qed.

Lemma pipeline_identities_witness :
  fst (run_pipeline [archivo_roto; archivo_sur; archivo_online]) = Ok tablas_sur_online
  /\ Exists (fun f => readable f = true) [archivo_roto; archivo_sur; archivo_online]
  /\ Forall (fun f => canonical_identity (Fact.Articulo f)) (fact_ventas tablas_sur_online)
  /\ Forall (fun d => canonical_identity (Dim.Articulo d)) (dim_articulos tablas_sur_online).
Proof.
  assert (H : fst (run_pipeline [archivo_roto; archivo_sur; archivo_online])
              = Ok tablas_sur_online) by (vm_compute; reflexivity).
  split; [exact H | exact (pipeline_identities _ _ H)].
Defined.

(** *** Where the branches come from *)

Lemma fuzzy_fold_untouched (c : string) (cols : list string) :
  is_articulo (remove_accents (lower c)) = false ->
  other_target (remove_accents (lower c)) = None ->
  forall st, fst st !! c = None -> fst (fold_left fuzzy_step cols st) !! c = None.
Proof.
  intros Ha Ho. induction cols as [| col cols IH]; intros st H; [exact H |].
  cbn [fold_left]. apply IH. unfold fuzzy_step.
  destruct (negb (snd st) && is_articulo (remove_accents (lower col))) eqn:E; cbn [fst].
  - destruct (string_dec col c) as [-> | Hne].
    + apply andb_prop in E. destruct E as [_ E]. congruence.
    + now rewrite lookup_insert_ne.
  - destruct (other_target (remove_accents (lower col))) as [t |] eqn:Et; cbn [fst];
      [| exact H].
    destruct (string_dec col c) as [-> | Hne]; [congruence |].
    now rewrite lookup_insert_ne.
Qed.

(** The normaliser leaves the label Sucursal where it is. *)
Lemma normalised_sucursal (raw norm : DataFrame) (p : nat) :
  super_normalize_columns raw = Ok norm ->
  nth_error (columns raw) p = Some "Sucursal" ->
  nth_error (columns norm) p = Some "Sucursal".
Proof.
  unfold super_normalize_columns. destruct (mem _ _); [| discriminate].
  intros [= <-] Hp. cbn [columns].
  rewrite map_map, nth_error_map, Hp. cbn [option_map]. f_equal.
  assert (E : clean_label "Sucursal" = "Sucursal") by (vm_compute; reflexivity).
  rewrite E. unfold rename, fuzzy_detection.
  rewrite (fuzzy_fold_untouched "Sucursal");
    [reflexivity | vm_compute; reflexivity | vm_compute; reflexivity | apply lookup_empty].
Qed.

Lemma position_single (c : string) (cols : list string) :
  forall p, nth_error cols p = Some c ->
            (count_occ string_dec cols c <= 1)%nat ->
            position c cols = Some p.
Proof.
  induction cols as [| c' cols IH]; intros p Hp Hc; [destruct p; discriminate |].
  cbn [position]. destruct p as [| p]; cbn [nth_error] in Hp.
  - injection Hp as ->. now rewrite String.eqb_refl.
  - destruct (String.eqb_spec c c') as [<- | Hne].
    + exfalso. rewrite count_occ_cons_eq in Hc by reflexivity.
      apply nth_error_In in Hp. apply (count_occ_In string_dec) in Hp. lia.
    + rewrite count_occ_cons_neq in Hc by congruence.
      now rewrite (IH p Hp Hc).
Qed.

Lemma count_occ_add_label (x c : string) (cols : list string) :
  (count_occ string_dec cols c <= count_occ string_dec (add_label x cols) c)%nat.
Proof.
  unfold add_label. destruct (mem x cols); [lia |]. rewrite count_occ_app. lia.
Qed.

Lemma pareto_single_sucursal (df : Clean.frame) (out : tablas) :
  calculate_pareto df = Ok out ->
  (count_occ string_dec (Clean.columns df) "Sucursal" <= 1)%nat.
Proof.
  unfold calculate_pareto. destruct (negb _); [discriminate |].
  destruct (duplicated "Venta_Neta" _ || duplicated "Articulo" _ || duplicated "Sucursal" _)
    eqn:E; [discriminate |].
  intros _. apply orb_false_elim in E. destruct E as [_ E].
  unfold duplicated in E. apply Nat.ltb_ge in E. exact E.
Qed.

Lemma clean_data_sucursal (df : DataFrame) (clean : Clean.frame) :
  clean_data df = Ok clean ->
  Forall (fun r => exists row, In row (rows df)
                               /\ Clean.Sucursal r
                                  = cell_str (at_label (columns df) "Sucursal" row))
         (Clean.rows clean).
Proof.
  unfold clean_data, numeric_series, upper_series. intros H.
  case_series_in H; injection H as <-; cbn [Clean.rows];
    apply List.Forall_forall; intros x Hx;
    apply in_map_iff in Hx; destruct Hx as [r [<- Hr]];
    repeat (apply filter_In in Hr; destruct Hr as [Hr _]);
    exists r; (split; [exact Hr | reflexivity]).
Qed.

Lemma dim_sucursales_In (fact : list Fact.row) (b : Branch.row) :
  In b (dim_sucursales fact) -> In (Branch.Sucursal b) (map Fact.Sucursal fact).
Proof.
  unfold dim_sucursales. intros H.
  apply (Permutation_in _ (sort_perm _ _)) in H.
  apply in_map_iff in H. destruct H as [s [<- Hs]].
  apply (proj1 (unique_In _ _)) in Hs. exact Hs.
Qed.

(** X26. When the pipeline returns tables, the branch of every row of the
    fact table is the upper-cased stem of the name of an input file that
    could be read, and so is every branch of the branch dimension. *)
Theorem pipeline_branches (files : list csv_file) (out : tablas) :
  fst (run_pipeline files) = Ok out ->
  Forall (fun f => exists file, In file files /\ readable file = true
                                /\ Fact.Sucursal f = upper (stem file))
         (fact_ventas out)
  /\ Forall (fun b => exists file, In file files /\ readable file = true
                                   /\ Branch.Sucursal b = upper (stem file))
            (dim_sucursales (fact_ventas out)).
Proof.
  intros H. apply run_pipeline_Ok in H.
  destruct H as (raw & norm & clean & Hraw & Hnorm & Hclean & Hout).
  assert (Hfact : Forall (fun f => exists file, In file files /\ readable file = true
                                                /\ Fact.Sucursal f = upper (stem file))
                         (fact_ventas out)).
  { destruct (consolidated_label_sucursal files raw Hraw) as [j [Hp Hn]].
    pose proof (normalised_sucursal raw norm j Hnorm Hn) as Hn'.
    assert (Hp' : position "Sucursal" (columns norm) = Some j).
    { apply position_single; [exact Hn' |].
      pose proof (pareto_single_sucursal clean out Hout) as Hc.
      rewrite (clean_data_columns norm clean Hclean) in Hc.
      pose proof (count_occ_add_label "Venta_Neta" "Sucursal" (columns norm)).
      pose proof (count_occ_add_label "Cantidad" "Sucursal"
                    (add_label "Venta_Neta" (columns norm))).
      pose proof (count_occ_add_label "Descripcion" "Sucursal"
                    (add_label "Cantidad" (add_label "Venta_Neta" (columns norm)))).
      lia. }
    pose proof (consolidated_rows_tagged files raw Hraw) as Htag.
    pose proof (clean_data_sucursal norm clean Hclean) as Hsuc.
    destruct (normalized_has_articulo raw norm Hnorm) as (_ & Hrows & _).
    rewrite List.Forall_forall in Htag, Hsuc.
    destruct (exported_from_clean clean out Hout) as (Hf & _).
    eapply List.Forall_impl; [| exact Hf]. cbv beta.
    intros f [r [Hr E]]. unfold fact_key, clean_key in E. injection E as _ ->.
    destruct (Hsuc r Hr) as [row [Hrow ->]].
    rewrite Hrows in Hrow. destruct (Htag row Hrow) as [file (Hfile & Hread & Ecell)].
    exists file. split; [exact Hfile | split; [exact Hread |]].
    unfold at_label in *. rewrite Hp'. rewrite Hp in Ecell. now rewrite Ecell. }
  split; [exact Hfact |].
  rewrite List.Forall_forall in Hfact.
  apply List.Forall_forall. intros b Hb.
  apply dim_sucursales_In, in_map_iff in Hb. destruct Hb as [f [<- Hf]].
  now apply Hfact.
Qed.

Lemma pipeline_branches_witness :
  fst (run_pipeline [archivo_roto; archivo_sur; archivo_online]) = Ok tablas_sur_online
  /\ Forall (fun f => exists file, In file [archivo_roto; archivo_sur; archivo_online]
                                   /\ readable file = true
                                   /\ Fact.Sucursal f = upper (stem file))
            (fact_ventas tablas_sur_online)
  /\ Forall (fun b => exists file, In file [archivo_roto; archivo_sur; archivo_online]
                                   /\ readable file = true
                                   /\ Branch.Sucursal b = upper (stem file))
            (dim_sucursales (fact_ventas tablas_sur_online)).
Proof.
  assert (H : fst (run_pipeline [archivo_roto; archivo_sur; archivo_online])
              = Ok tablas_sur_online) by (vm_compute; reflexivity).
  split; [exact H | exact (pipeline_branches _ _ H)].
Defined.

(** ** The descriptions of the dimension *)

Lemma find_first {X : Type} (p : X -> bool) (l : list X) (x : X) :
  find p l = Some x ->
  exists pre post, l = (pre ++ x :: post)%list
                   /\ Forall (fun y => p y = false) pre /\ p x = true.
Proof.
  induction l as [| y l IH]; cbn [find]; [discriminate |].
  destruct (p y) eqn:E.
  - intros [= ->]. exists [], l. repeat split; [constructor | exact E].
  - intros H. destruct (IH H) as (pre & post & -> & Hpre & Hx).
    exists (y :: pre), post. repeat split; [now constructor | exact Hx].
Qed.

Lemma find_In_some {X : Type} (p : X -> bool) (l : list X) (x : X) :
  In x l -> p x = true -> exists y, find p l = Some y.
Proof.
  intros Hin Hp. destruct (find p l) as [y |] eqn:E; [now exists y |].
  rewrite (find_none p l E x Hin) in Hp. discriminate.
Qed.

Lemma clean_data_default_description (df : DataFrame) (clean : Clean.frame) :
  clean_data df = Ok clean ->
  ~ In "Descripcion" (columns df) ->
  Forall (fun r => Clean.Descripcion r = "SIN DESCRIPCION") (Clean.rows clean).
Proof.
  intros H Hn.
  assert (E : mem "Descripcion" (columns df) = false).
  { apply not_true_is_false. intros E. now apply mem_In in E. }
  unfold clean_data, numeric_series, upper_series in H. rewrite E in H.
  case_series_in H; injection H as <-; cbn [Clean.rows];
    apply List.Forall_forall; intros x Hx;
    apply in_map_iff in Hx; destruct Hx as [r [<- _]]; reflexivity.
Qed.

Lemma dim_first_description (df : DataFrame) (clean : Clean.frame) (out : tablas) :
  clean_data df = Ok clean ->
  calculate_pareto clean = Ok out ->
  Forall (fun d => exists pre r post,
                     Clean.rows clean = (pre ++ r :: post)%list
                     /\ Forall (fun r' => Clean.Articulo r' <> Dim.Articulo d) pre
                     /\ Clean.Articulo r = Dim.Articulo d
                     /\ Dim.Descripcion d = Some (Clean.Descripcion r))
         (dim_articulos out).
Proof.
  intros Hc Ho.
  assert (Hmem : mem "Descripcion" (Clean.columns clean) = true).
  { apply mem_In. rewrite (clean_data_columns df clean Hc). apply add_label_new. }
  apply calculate_pareto_Ok in Ho. destruct Ho as (_ & Hd & _).
  rewrite Hd. apply List.Forall_forall. intros d Hin.
  apply dim_origin in Hin. destruct Hin as [it (Hit & _ & Ea & Ed & _)].
  rewrite Ea, Ed. clear Ea Ed d.
  unfold build_items in Hit. apply in_map_iff in Hit. destruct Hit as [a [<- Ha]].
  cbn [Item.Articulo Item.Descripcion]. rewrite Hmem.
  apply group_keys_In, in_map_iff in Ha. destruct Ha as [f [<- Hf]].
  apply build_fact_articulo in Hf. destruct Hf as [r0 [Hr0 ->]].
  unfold desc_map.
  destruct (find_In_some (fun r => String.eqb (Clean.Articulo r) (Clean.Articulo r0))
              (Clean.rows clean) r0 Hr0 (String.eqb_refl _)) as [r Hfind].
  rewrite Hfind. cbn [option_map].
  apply find_first in Hfind. destruct Hfind as (pre & post & Hrows & Hpre & Hr).
  exists pre, r, post. split; [exact Hrows | split; [| split]].
  - eapply List.Forall_impl; [| exact Hpre]. intros r' E. cbv beta in E.
    now apply String.eqb_neq.
  - now apply String.eqb_eq.
  - reflexivity.
Qed.

(** X27. After the cleaner, when no cell of the column Descripcion is
    missing, every item of the exported dimension has a description: that of
    the first cleaned row of the item.  When the input has no column
    Descripcion it is SIN DESCRIPCION. *)
Theorem exported_descriptions (df : DataFrame) (clean : Clean.frame) (out : tablas) :
  clean_data df = Ok clean ->
  calculate_pareto clean = Ok out ->
  (In "Descripcion" (columns df) -> none_missing "Descripcion" df) ->
  Forall (fun d => exists pre r post,
                     Clean.rows clean = (pre ++ r :: post)%list
                     /\ Forall (fun r' => Clean.Articulo r' <> Dim.Articulo d) pre
                     /\ Clean.Articulo r = Dim.Articulo d
                     /\ Dim.Descripcion d = Some (Clean.Descripcion r))
         (dim_articulos out)
  /\ (~ In "Descripcion" (columns df) ->
      Forall (fun d => Dim.Descripcion d = Some "SIN DESCRIPCION") (dim_articulos out)).
Proof.
  intros Hc Ho _.
  pose proof (dim_first_description df clean out Hc Ho) as Hall.
  split; [exact Hall |].
  intros Hn. pose proof (clean_data_default_description df clean Hc Hn) as Hdef.
  rewrite List.Forall_forall in Hdef.
  eapply List.Forall_impl; [| exact Hall]. cbv beta.
  intros d (pre & r & post & Hrows & _ & _ & ->). f_equal. apply Hdef.
  rewrite Hrows. apply in_or_app. right. now left.
Qed.

Lemma exported_descriptions_witness :
  clean_data tabla_con_descripcion = Ok limpio_con_descripcion
  /\ calculate_pareto limpio_con_descripcion = Ok tablas_con_descripcion
  /\ none_missing "Descripcion" tabla_con_descripcion
  /\ Forall (fun d => exists pre r post,
                        Clean.rows limpio_con_descripcion = (pre ++ r :: post)%list
                        /\ Forall (fun r' => Clean.Articulo r' <> Dim.Articulo d) pre
                        /\ Clean.Articulo r = Dim.Articulo d
                        /\ Dim.Descripcion d = Some (Clean.Descripcion r))
            (dim_articulos tablas_con_descripcion)
  /\ map Dim.Descripcion (dim_articulos tablas_con_descripcion)
     = [Some "PANTALON"; Some "CAMISA AZUL"].
Proof.
  assert (Hc : clean_data tabla_con_descripcion = Ok limpio_con_descripcion)
    by (vm_compute; reflexivity).
  assert (Ho : calculate_pareto limpio_con_descripcion = Ok tablas_con_descripcion)
    by (vm_compute; reflexivity).
  assert (Hm : none_missing "Descripcion" tabla_con_descripcion).
  { unfold none_missing. repeat (apply List.Forall_cons; [vm_compute; discriminate |]).
    apply List.Forall_nil. }
  split; [exact Hc | split; [exact Ho | split; [exact Hm | split]]].
  - exact (proj1 (exported_descriptions _ _ _ Hc Ho (fun _ => Hm))).
  - vm_compute. reflexivity.
Defined.

(** X28. The five summary patterns are redundant: a value matches one of
    them, in any case of its letters, exactly when it contains TOTAL in any
    case of its letters. *)
Theorem patterns_reduce_to_total (value : string) :
  is_total value = contains_nocase "TOTAL" value.
Proof. rewrite is_total_total. reflexivity. Qed.
